(** * Panorama stitcher: acquisition and orchestration pipeline

    A shallow embedding of [panorama.cpp].  The program is a sequence of calls
    into OpenCV (capture, drawing, display, stitching), portable-file-dialogs
    (dialogs, notifications) and cxxopts (argument parsing).  Those libraries
    are modelled at their interface: every call is recorded in a trace, pixel
    buffers live in a store that [cv::Mat] headers point into, and whatever
    the outside world decides (camera frames, keys pressed, file contents,
    dialog answers, the stitcher's verdict) is read from an environment. *)

From Stdlib Require Import ZArith String Ascii List Lia DecimalString.
From Stdlib Require DecimalNat DecimalFacts.
From Stdlib Require Import Floats.SpecFloat.
From stdpp Require Import base list.

(** ** Scalars *)

(** [enum class Status]. *)
Inductive Status : Set := OK | EXIT | ERROR.

(** [typedef std::string Filename; typedef std::string Color;] *)
Abbreviation Filename := string (only parsing).
Abbreviation Color := string (only parsing).

Definition esc : string := String (ascii_of_nat 27) EmptyString.
Definition endl : string := String (ascii_of_nat 10) EmptyString.

Definition YELLOW : Color := (esc ++ "[93m")%string.
Definition GREEN : Color := (esc ++ "[32m")%string.
Definition CYAN : Color := (esc ++ "[36m")%string.
Definition RED : Color := (esc ++ "[31m")%string.

Definition RETURN : Z := 13.
Definition ESCAPE : Z := 27.

(** [std::size_t] on the 64-bit target: arithmetic wraps at 2^64. *)
Definition size_t_wrap (z : Z) : Z := (z mod 2 ^ 64)%Z.

(** ** IEEE binary64 ([double]) *)

Definition prec : Z := 53.
Definition emax : Z := 1024.

(** An integer as the nearest [double]. *)
Definition double_of_Z (z : Z) : spec_float := binary_normalize prec emax z 0 false.

(** The literal [0.1], i.e. the double [0x1.999999999999ap-4]. *)
Definition double_0_1 : spec_float := S754_finite false 7205759403792794 (-56).

(** Conversion of a [double] to an integer type truncates toward zero. *)
Definition double_trunc (x : spec_float) : Z :=
  match x with
  | S754_finite s m e =>
      let a := if (0 <=? e)%Z then (Z.pos m * 2 ^ e)%Z else (Z.pos m / 2 ^ (- e))%Z in
      if s then (- a)%Z else a
  | _ => 0%Z
  end.

Definition double_to_size_t (x : spec_float) : Z := size_t_wrap (double_trunc x).

(** ** Pixel buffers and [cv::Mat] *)

(** What a device or a decoder delivers: the number of rows and the pixel
    values, the latter opaque to this program. *)
Record Raster : Set := { height : Z; scene : nat }.

Inductive Font : Set := FONT_HERSHEY_COMPLEX_SMALL.

(** One [cv::putText] call. *)
Record Overlay : Set := {
  text : string;
  org : Z * Z;
  fontFace : Font;
  fontScale : spec_float;
  color : Z * Z * Z;
  thickness : Z
}.

(** The contents of a pixel buffer: what was delivered, and the text drawn
    over it since, oldest first. *)
Record Pixels : Set := { raster : Raster; drawn : list Overlay }.

Definition fresh (r : Raster) : Pixels := {| raster := r; drawn := [] |}.

Definition draw (o : Overlay) (p : Pixels) : Pixels :=
  {| raster := raster p; drawn := drawn p ++ [o] |}.

(** A [cv::Mat] is a header over a reference-counted buffer: [data] is the
    buffer's address in the store, [None] for an empty matrix. *)
Record Mat : Set := { data : option nat; rows : Z }.

(** [typedef cv::Mat Image;] *)
Abbreviation Image := Mat (only parsing).

(** [Image frame;] *)
Definition Mat_empty : Mat := {| data := None; rows := 0 |}.

(** [Image b( a );] the copy constructor copies the header only: both
    matrices then share one buffer. *)
Definition Mat_copy (a : Mat) : Mat := {| data := data a; rows := rows a |}.

(** ** The outside world *)

Inductive Icon : Set := icon_info | icon_error | icon_question.
Inductive Choice : Set := choice_yes_no.
Inductive Button : Set :=
| button_cancel | button_ok | button_yes | button_no | button_abort | button_retry | button_ignore.
Inductive Opt : Set := opt_multiselect.
Inductive StitcherMode : Set := PANORAMA.
Inductive StitcherStatus : Set :=
| Stitcher_OK | ERR_NEED_MORE_IMGS | ERR_HOMOGRAPHY_EST_FAIL | ERR_CAMERA_PARAMS_ADJUST_FAIL.

(** What [options.parse(argc, argv)] of cxxopts produces: a result that
    answers [count] and [as<T>] per option name, or an [OptionException]. *)
Record ParseResult : Type := {
  count : string -> nat;
  as_size_t : string -> nat;
  as_Filenames : string -> list string;
  as_Filename : string -> string
}.

Inductive Parse : Type :=
| Parsed (result : ParseResult)
| OptionException (what : string).

(** Every call that leaves the program. *)
Inductive Event : Type :=
| Cout (s : string)
| Notify (title message : string) (icon : Icon)
| OpenCamera (index : Z)
| OpenVideo (file : Filename)
| Read (position : Z) (got : option Raster)
| Seek (position : Z)
| Release
| Imread (file : Filename)
| Imshow (winname : string) (shown : option Pixels)
| WaitKey (delay : Z)
| DestroyAllWindows
| Stitch (mode : StitcherMode) (inputs : list (option Pixels))
| Imwrite (file : Filename) (written : option Pixels)
| OpenFileDialog (title dir : string) (filters : list string) (o : Opt)
| MessageDialog (title message : string) (c : Choice) (icon : Icon)
| Ready (timeout : Z)
| SaveFileDialog (title dir : string).

(** What the world decides. *)
Record Env : Type := {
  webcam : option (list Raster);           (* frames device 0 delivers; [None]: it does not open *)
  disk : Filename -> option Raster;        (* decodable image files *)
  videos : Filename -> option (list Raster);  (* readable video files *)
  picked : list Filename;                  (* files chosen in the file browser *)
  engine : list (option Pixels) -> StitcherStatus * option Raster;  (* the stitcher's verdict *)
  answer : Button;                         (* reply to the save question *)
  destination : string;                    (* path entered in the save dialog *)
  cxxopts_parse : list string -> Parse;    (* the argument parser *)
  help_text : string                       (* [options.help()] *)
}.

Record World : Type := {
  env : Env;
  store : list Pixels;   (* pixel buffers, by address *)
  keys : list Z;         (* what the coming [cv::waitKey] calls return *)
  pending : nat;         (* polls until the message dialog is answered *)
  out : list Event       (* calls made so far, oldest first *)
}.

Definition initial (e : Env) (ks : list Z) (n : nat) : World :=
  {| env := e; store := []; keys := ks; pending := n; out := [] |}.

(** ** Computations *)

Inductive Outcome (A : Type) : Type :=
| Done (a : A) (w : World)   (* returned normally *)
| Aborted (w : World)        (* an [assert] failed: the process is killed *)
| Spinning (w : World).      (* still looping when the step budget ran out *)

Arguments Done {A} a w.
Arguments Aborted {A} w.
Arguments Spinning {A} w.

Definition M (A : Type) : Type := World -> Outcome A.

Definition ret {A} (a : A) : M A := fun w => Done a w.

Definition bind {A B} (m : M A) (k : A -> M B) : M B :=
  fun w =>
    match m w with
    | Done a w' => k a w'
    | Aborted w' => Aborted w'
    | Spinning w' => Spinning w'
    end.

Declare Scope prog_scope.
Delimit Scope prog_scope with prog.
Bind Scope prog_scope with M.

Notation "'let*' x ':=' m 'in' k" := (bind m (fun x => k))
  (at level 10, x pattern, m at level 100, k at level 200) : prog_scope.
Notation "m >> k" := (bind m (fun _ => k))
  (at level 100, k at level 200, right associativity) : prog_scope.

Local Open Scope prog_scope.

(** [assert(b)]. *)
Definition assert (b : bool) : M unit :=
  fun w => if b then Done tt w else Aborted w.

Definition emit (e : Event) : M unit :=
  fun w => Done tt {| env := env w; store := store w; keys := keys w;
                      pending := pending w; out := out w ++ [e] |}.

Definition ask {A} (f : Env -> A) : M A := fun w => Done (f (env w)) w.

(** A new buffer, at the next free address. *)
Definition alloc (p : Pixels) : M nat :=
  fun w => Done (length (store w))
                {| env := env w; store := store w ++ [p]; keys := keys w;
                   pending := pending w; out := out w |}.

(** The buffer behind a matrix. *)
Definition deref (st : list Pixels) (m : Mat) : option Pixels :=
  match data m with
  | Some a => st !! a
  | None => None
  end.

(** The store as it stands. *)
Definition snapshot : M (list Pixels) := fun w => Done (store w) w.

Definition peek (m : Mat) : M (option Pixels) :=
  let* st := snapshot in ret (deref st m).

(** [for (;;) { body }] with a step budget; the body says whether to [break]. *)
Inductive Ctl : Set := Continue | Break.

Fixpoint forever {St} (fuel : nat) (body : St -> M (Ctl * St)) (s : St) : M St :=
  match fuel with
  | O => fun w => Spinning w
  | S fuel' =>
      let* r := body s in
      match r with
      | (Break, s') => ret s'
      | (Continue, s') => forever fuel' body s'
      end
  end.

(** ** OpenCV at its interface *)

(** A [cv::VideoCapture]: the frames its source delivers ([None] while it is
    not opened) and the index of the next frame. *)
Record VideoCapture : Set := { source : option (list Raster); position : Z }.

Inductive CapProp : Set := CAP_PROP_POS_FRAMES | CAP_PROP_FRAME_COUNT.

(** [feed.open( index )]; the environment describes device 0. *)
Definition open_device (index : Z) : M VideoCapture :=
  emit (OpenCamera index) >>
  let* cam := ask webcam in
  ret {| source := if (index =? 0)%Z then cam else None; position := 0 |}.

(** [feed.open( file )]. *)
Definition open_video (file : Filename) : M VideoCapture :=
  emit (OpenVideo file) >>
  let* vs := ask videos in
  ret {| source := vs file; position := 0 |}.

Definition frame_at (feed : VideoCapture) : option Raster :=
  match source feed with
  | Some frames =>
      if (0 <=? position feed)%Z then frames !! Z.to_nat (position feed) else None
  | None => None
  end.

(** [feed >> frame] into a newly declared [frame]: the frame at the current
    position is copied into a buffer of its own and the position advances;
    at the end of the source the matrix stays empty. *)
Definition read (feed : VideoCapture) : M (VideoCapture * Mat) :=
  let got := frame_at feed in
  emit (Read (position feed) got) >>
  match got with
  | Some r =>
      let* a := alloc (fresh r) in
      ret ({| source := source feed; position := position feed + 1 |},
           {| data := Some a; rows := height r |})
  | None => ret (feed, Mat_empty)
  end.

(** [feed.get( prop )].  OpenCV hands these out as [double]; frame indices
    and counts are integers far below 2^53 and pass through unchanged, so
    the model keeps them as integers. *)
Definition get (feed : VideoCapture) (prop : CapProp) : Z :=
  match source feed with
  | Some frames =>
      match prop with
      | CAP_PROP_POS_FRAMES => position feed
      | CAP_PROP_FRAME_COUNT => Z.of_nat (length frames)
      end
  | None => 0
  end.

(** [feed.set( CAP_PROP_POS_FRAMES, value )]. *)
Definition set_pos (feed : VideoCapture) (value : Z) : M VideoCapture :=
  emit (Seek value) >>
  ret match source feed with
      | Some frames => {| source := Some frames; position := value |}
      | None => feed
      end.

(** [feed.release()]. *)
Definition release (feed : VideoCapture) : M unit := emit Release.

(** [cv::putText] writes into the buffer the matrix points to. *)
Definition putText (img : Mat) (txt : string) (at_ : Z * Z) (font : Font)
    (scale : spec_float) (col : Z * Z * Z) (thick : Z) : M unit :=
  fun w =>
    match data img with
    | Some a =>
        let o := {| text := txt; org := at_; fontFace := font; fontScale := scale;
                    color := col; thickness := thick |} in
        Done tt {| env := env w; store := alter (draw o) a (store w); keys := keys w;
                   pending := pending w; out := out w |}
    | None => Done tt w
    end.

Definition imshow (winname : string) (mat : Mat) : M unit :=
  let* p := peek mat in emit (Imshow winname p).

(** [cv::waitKey( delay )]: the next key, or -1 when none comes. *)
Definition waitKey (delay : Z) : M Z :=
  emit (WaitKey delay) >>
  fun w =>
    match keys w with
    | k :: ks => Done k {| env := env w; store := store w; keys := ks;
                           pending := pending w; out := out w |}
    | [] => Done (-1)%Z w
    end.

Definition destroyAllWindows : M unit := emit DestroyAllWindows.

(** [cv::imread( file )]: an empty matrix when the file cannot be decoded. *)
Definition imread (file : Filename) : M Mat :=
  emit (Imread file) >>
  let* d := ask disk in
  match d file with
  | Some r => let* a := alloc (fresh r) in ret {| data := Some a; rows := height r |}
  | None => ret Mat_empty
  end.

Definition imwrite (file : Filename) (img : Mat) : M unit :=
  let* p := peek img in emit (Imwrite file p).

(** [a.clone()]: a matrix over a new buffer holding a copy of the contents.
    [panorama.cpp] never calls it; the documented listing of the program does,
    for the preview frame of [cameraCapture]. *)
Definition Mat_clone (a : Mat) : M Mat :=
  let* p := peek a in
  match p with
  | Some px => let* b := alloc px in ret {| data := Some b; rows := rows a |}
  | None => ret Mat_empty
  end.

(** [cv::Stitcher::create( mode )->stitch( images, panorama )]. *)
Definition stitch (mode : StitcherMode) (images : list Image) : M (StitcherStatus * Mat) :=
  let* st := snapshot in
  let inputs := map (deref st) images in
  emit (Stitch mode inputs) >>
  let* eng := ask engine in
  match eng inputs with
  | (Stitcher_OK, Some r) =>
      let* a := alloc (fresh r) in ret (Stitcher_OK, {| data := Some a; rows := height r |})
  | (status, _) => ret (status, Mat_empty)
  end.

(** ** portable-file-dialogs at its interface *)

(** [pfd::open_file( title, dir, filters, opt ).result()]. *)
Definition open_file (title dir : string) (filters : list string) (o : Opt)
    : M (list Filename) :=
  emit (OpenFileDialog title dir filters o) >> ask picked.

(** [pfd::message( title, text, choice, icon )] puts the dialog up. *)
Definition message (title txt : string) (c : Choice) (i : Icon) : M unit :=
  emit (MessageDialog title txt c i).

(** [save.ready( timeout )]: has the dialog been answered? *)
Definition ready (timeout : Z) : M bool :=
  emit (Ready timeout) >>
  fun w =>
    match pending w with
    | O => Done true w
    | S n => Done false {| env := env w; store := store w; keys := keys w;
                           pending := n; out := out w |}
    end.

(** [save.result()]. *)
Definition result_of_message : M Button := ask answer.

(** [pfd::save_file( title, dir ).result()]. *)
Definition save_file (title dir : string) : M string :=
  emit (SaveFileDialog title dir) >> ask destination.

(** [pfd::notify( title, message, icon )]. *)
Definition notify (title msg : string) (i : Icon) : M unit :=
  emit (Notify title msg i).

(** ** The program *)

(** [std::to_string] on an unsigned index. *)
Definition to_string (i : nat) : string := NilZero.string_of_uint (Nat.to_uint i).

Definition showNotification (msg : string) : M unit :=
  emit (Cout GREEN) >>
  emit (Cout (msg ++ endl)%string) >>
  notify "Panorama Stitcher" msg icon_info.

Definition showError (msg : string) : M unit :=
  emit (Cout RED) >>
  emit (Cout (msg ++ endl)%string) >>
  notify "Panorama Stitcher" msg icon_error.

Fixpoint uploadImages (images : list Image) (files : list Filename) : M (list Image) :=
  match files with
  | [] => ret images
  | file :: files' =>
      let* image := imread file in
      uploadImages (images ++ [Mat_copy image]) files'
  end.

Definition demos : list (string * nat) :=
  [ ("carmel", 18); ("diamondhead", 23); ("example", 2);
    ("fishbowl", 13); ("goldengate", 6); ("halfdome", 14);
    ("hotel", 8); ("office", 4); ("rio", 56);
    ("shanghai", 30); ("yard", 9) ]%string.

(** The body of the loop in [runDemo] for index [i]. *)
Definition demo_file (entry : string * nat) (i : nat) : Filename :=
  ("./demos/" ++ fst entry ++ "/" ++ fst entry
     ++ "-" ++ (if (i <? 10)%nat then "0" else "") ++ to_string i ++ ".png")%string.

(** [for (i = 0; i < demos[demo].second; ++i) image_files.push_back(file);] *)
Definition demo_files (entry : string * nat) : list Filename :=
  fold_left (fun image_files i => image_files ++ [demo_file entry i]) (seq 0 (snd entry)) [].

Definition runDemo (images : list Image) (demo : nat) : M (list Image) :=
  assert ((0 <=? demo) && (demo <? length demos)) >>
  let image_files := demo_files (nth demo demos (EmptyString, 0)) in
  uploadImages images image_files.

Definition instructions : string := "Press RETURN to capture frame or ESC to exit".

Definition double_1 : spec_float := double_of_Z 1.

(** One turn of the loop in [cameraCapture]. *)
Definition cameraCapture_body (s : VideoCapture * list Image)
    : M (Ctl * (VideoCapture * list Image)) :=
  let '(feed, images) := s in
  let* (feed, frame) := read feed in
  match data frame with
  | Some _ =>
      let display_frame := Mat_copy frame in
      putText display_frame instructions (20, rows display_frame - 30)%Z
              FONT_HERSHEY_COMPLEX_SMALL double_1 (0, 0, 0)%Z 3 >>
      putText display_frame instructions (20, rows display_frame - 30)%Z
              FONT_HERSHEY_COMPLEX_SMALL double_1 (255, 255, 255)%Z 1 >>
      imshow "Camera feed" display_frame >>
      let* key := waitKey 1 in
      let* (images, exit) :=
        if (key =? RETURN)%Z then
          emit (Cout YELLOW) >>
          emit (Cout ("Adding frame..." ++ endl)%string) >>
          ret (images ++ [Mat_copy frame], false)
        else if (key =? ESCAPE)%Z then
          emit (Cout CYAN) >>
          emit (Cout ("Finished taking images..." ++ endl)%string) >>
          ret (images, true)
        else ret (images, false) in
      if exit : bool then ret (Break, (feed, images)) else ret (Continue, (feed, images))
  | None => ret (Break, (feed, images))
  end.

Definition cameraCapture (fuel : nat) (images : list Image) : M (list Image) :=
  let* feed := open_device 0 in
  let* (feed, images) := forever fuel cameraCapture_body (feed, images) in
  release feed >>
  destroyAllWindows >>
  ret images.

Definition fileSelectGUI (images : list Image) : M (list Image) :=
  let* files := open_file "Select images to create panorama of" "./"
                          ["All Files"; "*"]%string opt_multiselect in
  uploadImages images files.

(** [frame_frequency = feed.get(CAP_PROP_FRAME_COUNT) * frequency], a
    [double] product assigned to a [std::size_t]. *)
Definition frame_frequency_of (feed : VideoCapture) (frequency : spec_float) : Z :=
  double_to_size_t (SFmul prec emax (double_of_Z (get feed CAP_PROP_FRAME_COUNT)) frequency).

(** One turn of the loop in [videoCapture]; the stride is fixed before the
    loop, the recorded position changes with every turn. *)
Definition videoCapture_body (frame_frequency : Z) (s : VideoCapture * list Image * Z)
    : M (Ctl * (VideoCapture * list Image * Z)) :=
  let '(feed, images, frame_position) := s in
  let* (feed, frame) := read feed in
  match data frame with
  | Some _ =>
      let images := images ++ [Mat_copy frame] in
      let* feed := set_pos feed (size_t_wrap (frame_position + frame_frequency)) in
      let frame_position := size_t_wrap (get feed CAP_PROP_POS_FRAMES) in
      ret (Continue, (feed, images, frame_position))
  | None => ret (Break, (feed, images, frame_position))
  end.

Definition videoCapture (fuel : nat) (images : list Image) (video : Filename)
    (frequency : spec_float) : M (list Image) :=
  assert (SFltb (double_of_Z 0) frequency && SFltb frequency (double_of_Z 1)) >>
  let* feed := open_video video in
  let frame_position := size_t_wrap (get feed CAP_PROP_POS_FRAMES) in
  let frame_frequency := frame_frequency_of feed frequency in
  let* (feed, images, _) :=
    forever fuel (videoCapture_body frame_frequency) (feed, images, frame_position) in
  release feed >>
  ret images.

Definition promptSaveImage (fuel : nat) (image : Image) : M unit :=
  message "Save image?" "Would you like to save the panorama image?"
          choice_yes_no icon_question >>
  forever fuel (fun _ : unit =>
                  let* r := ready 1000 in
                  ret (if r : bool then Break else Continue, tt)) tt >>
  let* button := result_of_message in
  match button with
  | button_yes =>
      let* dir := save_file "Choose save location" "./" in
      if String.eqb dir "" then ret tt
      else
        imwrite dir image >>
        showNotification ("Panorama saved at: " ++ dir)%string
  | _ => ret tt
  end.

Definition createPanorama (fuel : nat) (images : list Image) : M unit :=
  emit (Cout GREEN) >>
  emit (Cout ("Creating panorama..." ++ endl)%string) >>
  let* (status, panorama) := stitch PANORAMA images in
  match status with
  | Stitcher_OK =>
      showNotification "Panorama successfully created!" >>
      imshow "Panorama" panorama >>
      waitKey 0 >>
      promptSaveImage fuel panorama >>
      destroyAllWindows
  | _ => showError "Panorama could not be created."
  end.

Definition parseArgs (fuel : nat) (argv : list string) (images : list Image)
    : M (Status * list Image) :=
  let* parse := ask cxxopts_parse in
  match parse argv with
  | Parsed result =>
      if 0 <? count result "help" then
        emit (Cout CYAN) >>
        let* help := ask help_text in
        emit (Cout (help ++ endl)%string) >>
        ret (EXIT, images)
      else if 0 <? count result "demo" then
        let* images := runDemo images (as_size_t result "demo") in
        ret (OK, images)
      else if 0 <? count result "camera" then
        let* images := cameraCapture fuel images in
        ret (OK, images)
      else if 0 <? count result "select" then
        let* images := fileSelectGUI images in
        ret (OK, images)
      else if 0 <? count result "images" then
        let* images := uploadImages images (as_Filenames result "images") in
        ret (OK, images)
      else if 0 <? count result "video" then
        let* images := videoCapture fuel images (as_Filename result "video") double_0_1 in
        ret (OK, images)
      else
        emit (Cout YELLOW) >>
        emit (Cout ("Use -h or --help for more information" ++ endl)%string) >>
        ret (EXIT, images)
  | OptionException what =>
      emit (Cout RED) >>
      emit (Cout ("Error parsing args: " ++ what ++ endl)%string) >>
      ret (ERROR, images)
  end.

Definition Status_eqb (a b : Status) : bool :=
  match a, b with
  | OK, OK | EXIT, EXIT | ERROR, ERROR => true
  | _, _ => false
  end.

(** [main] yields the exit status of the process. *)
Definition main (fuel : nat) (argv : list string) : M Z :=
  let images : list Image := [] in
  let* (status, images) := parseArgs fuel argv images in
  (if Status_eqb status OK then
     if 1 <? length images then createPanorama fuel images
     else showError "Not enough images provided"
   else ret tt) >>
  ret 0%Z.

(** * Vocabulary of the properties *)

(** ** Outcomes and traces *)

Definition world_of {A} (o : Outcome A) : World :=
  match o with
  | Done _ w => w
  | Aborted w => w
  | Spinning w => w
  end.

(** [preserves P m]: if every call made so far satisfies [P], so does every
    call made once [m] has run, however it ends. *)
Definition preserves {A} (P : Event -> Prop) (m : M A) : Prop :=
  forall w, Forall P (out w) -> Forall P (out (world_of (m w))).

Definition not_Stitch (e : Event) : Prop :=
  match e with
  | Stitch _ _ => False
  | _ => True
  end.

Definition Stitch_of_two (e : Event) : Prop :=
  match e with
  | Stitch _ inputs => 2 <= length inputs
  | _ => True
  end.

(** The encode calls and the notifications in a stretch of trace. *)
Definition encodes (tr : list Event) : list (Filename * option Pixels) :=
  omap (fun e => match e with Imwrite file px => Some (file, px) | _ => None end) tr.

Definition notifications (tr : list Event) : list (string * string * Icon) :=
  omap (fun e => match e with Notify t m i => Some (t, m, i) | _ => None end) tr.

(** What [showError] adds to the trace. *)
Definition error_report (msg : string) : list Event :=
  [Cout RED; Cout (msg ++ endl)%string; Notify "Panorama Stitcher" msg icon_error].

(** ** Dataset resolver *)

(** A single decimal digit. *)
Definition digit (i : nat) : string := String (ascii_of_nat (48 + i)) EmptyString.

(** The index field of a demo file name as the specification words it: two
    digits with a leading zero up to 9, the plain decimal numeral above. *)
Definition index_field (i : nat) : string :=
  if i <=? 9 then ("0" ++ digit i)%string else to_string i.

(** The path of frame [i] of the dataset [name] as the specification words
    it: [<dataset-root>/<name>/<name>-<NN>.<ext>]. *)
Definition demo_path (name : string) (i : nat) : Filename :=
  ("./demos" ++ "/" ++ name ++ "/" ++ name ++ "-" ++ index_field i ++ "." ++ "png")%string.

(** ** Static upload *)

(** What [imread] leaves behind for a file: a matrix over a new buffer
    holding the decoded raster, or the empty matrix. *)
Definition decoded (e : Env) (st : list Pixels) (file : Filename) : Mat :=
  match disk e file with
  | Some r => {| data := Some (length st); rows := height r |}
  | None => Mat_empty
  end.

Definition grown (e : Env) (st : list Pixels) (file : Filename) : list Pixels :=
  match disk e file with
  | Some r => st ++ [fresh r]
  | None => st
  end.

(** ** Live capture *)

(** The two [putText] passes of [cameraCapture] over a frame of [h] rows. *)
Definition outline_pass (h : Z) : Overlay :=
  {| text := instructions; org := (20, h - 30)%Z; fontFace := FONT_HERSHEY_COMPLEX_SMALL;
     fontScale := double_1; color := (0, 0, 0)%Z; thickness := 3 |}.

Definition fill_pass (h : Z) : Overlay :=
  {| text := instructions; org := (20, h - 30)%Z; fontFace := FONT_HERSHEY_COMPLEX_SMALL;
     fontScale := double_1; color := (255, 255, 255)%Z; thickness := 1 |}.

(** A frame with the instructions drawn on it. *)
Definition annotated (r : Raster) : Pixels :=
  draw (fill_pass (height r)) (draw (outline_pass (height r)) (fresh r)).

(** The key polled in the coming cycle: -1 when none is pressed. *)
Definition next_key (ks : list Z) : Z := hd (-1)%Z ks.

(** Which frames a capture session keeps, as the specification words it:
    the frame of every cycle in which RETURN (13) is polled, in order, up to
    the cycle in which ESCAPE (27) is polled or the camera runs dry. *)
Fixpoint captured (frames : list Raster) (ks : list Z) : list Raster :=
  match frames with
  | [] => []
  | f :: frames' =>
      if (next_key ks =? 13)%Z then f :: captured frames' (tl ks)
      else if (next_key ks =? 27)%Z then []
      else captured frames' (tl ks)
  end.

(** What one cycle prints after the key poll. *)
Definition key_echo (key : Z) : list Event :=
  if (key =? RETURN)%Z then [Cout YELLOW; Cout ("Adding frame..." ++ endl)%string]
  else if (key =? ESCAPE)%Z then [Cout CYAN; Cout ("Finished taking images..." ++ endl)%string]
  else [].

(** Where a captured matrix points, the store holds the frame it was read
    from (with the instructions drawn over it). *)
Definition holds (st : list Pixels) (m : Mat) (r : Raster) : Prop :=
  exists a, data m = Some a /\ st !! a = Some (annotated r).

(** ** Video sampler *)

Definition frequency_ok (frequency : spec_float) : bool :=
  SFltb (double_of_Z 0) frequency && SFltb frequency (double_of_Z 1).

(** The stride for a video of [total] frames: [total * frequency] computed
    in [double], truncated into a [std::size_t]. *)
Definition stride_of (total : Z) (frequency : spec_float) : Z :=
  double_to_size_t (SFmul prec emax (double_of_Z total) frequency).

(** How many multiples of [stride] lie below [total], and which. *)
Definition sample_count (total stride : Z) : nat :=
  Z.to_nat ((total + stride - 1) / stride).

Definition sampled_positions (total stride : Z) : list Z :=
  map (fun k => (Z.of_nat k * stride)%Z) (seq 0 (sample_count total stride)).

(** The calls of one successful turn at position [p]. *)
Definition turn (frames : list Raster) (stride p : Z) : list Event :=
  [Read p (frames !! Z.to_nat p); Seek (p + stride)%Z].

(** ** Result workflow *)

(** The dialog and the polls that precede the answer. *)
Definition save_question (polls : nat) : list Event :=
  MessageDialog "Save image?" "Would you like to save the panorama image?"
                choice_yes_no icon_question
  :: repeat (Ready 1000) polls.

Definition poll (_ : unit) : M (Ctl * unit) :=
  let* r := ready 1000 in
  ret (if r : bool then Break else Continue, tt).

(** What follows the answer. *)
Definition save_steps (e : Env) (px : option Pixels) : list Event :=
  match answer e with
  | button_yes =>
      SaveFileDialog "Choose save location" "./"
      :: (if String.eqb (destination e) "" then []
          else [ Imwrite (destination e) px;
                 Cout GREEN;
                 Cout (("Panorama saved at: " ++ destination e) ++ endl)%string;
                 Notify "Panorama Stitcher" ("Panorama saved at: " ++ destination e)%string
                        icon_info ])
  | _ => []
  end.

(** The calls of [createPanorama] up to the save question, for a stitch that
    succeeded with panorama [r]. *)
Definition stitched_preview (inputs : list (option Pixels)) (r : Raster) : list Event :=
  [ Cout GREEN; Cout ("Creating panorama..." ++ endl)%string;
    Stitch PANORAMA inputs;
    Cout GREEN; Cout ("Panorama successfully created!" ++ endl)%string;
    Notify "Panorama Stitcher" "Panorama successfully created!" icon_info;
    Imshow "Panorama" (Some (fresh r));
    WaitKey 0 ].

(** ** Argument handling *)

(** The options that name a source of images. *)
Definition source_flags : list string := ["camera"; "select"; "images"; "video"; "demo"]%string.

(** More than one of them was given. *)
Definition conflicting (result : ParseResult) : Prop :=
  2 <= length (filter (fun name => 0 < count result name) source_flags).

(** The first call of each adapter. *)
Definition adapter_call (e : Event) : Prop :=
  match e with
  | OpenCamera _ | OpenVideo _ | OpenFileDialog _ _ _ _ | Imread _ => True
  | _ => False
  end.

(** The claim about conflicting flags, for one run: no adapter is called. *)
Definition conflict_rejected (fuel : nat) (argv : list string) (w : World) : Prop :=
  Forall (fun e => ~ adapter_call e) (out (world_of (main fuel argv w))).

(** ** Invariants of a run *)

(** [keeps I m]: if [I] holds of the world before [m], it holds of the world
    [m] leaves, however [m] ends. *)
Definition keeps {A} (I : World -> Prop) (m : M A) : Prop :=
  forall w, I w -> I (world_of (m w)).

(** The calls by which images are acquired. *)
Definition acquisition_call (e : Event) : Prop :=
  match e with
  | Cout _ | OpenCamera _ | OpenVideo _ | Read _ _ | Seek _ | Release | Imread _
  | Imshow _ _ | WaitKey _ | DestroyAllWindows | OpenFileDialog _ _ _ _ => True
  | _ => False
  end.

Definition not_Imwrite (e : Event) : Prop :=
  match e with
  | Imwrite _ _ => False
  | _ => True
  end.

(** An encode call is consented to when the user answered "yes" and it goes
    to the path the user entered, which is not empty. *)
Definition consented (e : Env) (ev : Event) : Prop :=
  match ev with
  | Imwrite file _ => answer e = button_yes /\ file = destination e /\ file <> EmptyString
  | _ => True
  end.

(** [safe m]: no assertion fails in [m]. *)
Definition safe {A} (m : M A) : Prop := forall w w', m w <> Aborted w'.

(** ** The preview *)

(** The frames a capture session reads: all up to and including the one
    whose cycle polls ESCAPE. *)
Fixpoint shown (frames : list Raster) (ks : list Z) : list Raster :=
  match frames with
  | [] => []
  | f :: frames' =>
      f :: (if (next_key ks =? RETURN)%Z then shown frames' (tl ks)
            else if (next_key ks =? ESCAPE)%Z then []
            else shown frames' (tl ks))
  end.


(** ** Reading a demo file name back *)

(** Everything of a demo file name that precedes the index. *)
Definition demo_prefix (name : string) : string :=
  ("./demos/" ++ name ++ "/" ++ name ++ "-")%string.

(** The index in a file name of the dataset [name]: what stands between the
    prefix and the four characters of the extension, read as a decimal. *)
Definition frame_index (name : string) (file : Filename) : option nat :=
  let skip := String.length (demo_prefix name) in
  option_map Nat.of_uint
    (NilZero.uint_of_string (substring skip (String.length file - skip - 4) file)).

(** ** Sample worlds *)

Definition frame_no (n : nat) : Raster := {| height := 480; scene := n |}.

Definition sample_disk (file : Filename) : option Raster :=
  if String.eqb file "b.png" then None else Some {| height := 480; scene := String.length file |}.

Definition sample_env : Env :=
  {| webcam := None; disk := sample_disk; videos := fun _ => None; picked := [];
     engine := fun _ => (ERR_NEED_MORE_IMGS, None);
     answer := button_no; destination := EmptyString;
     cxxopts_parse := fun _ => OptionException "no such option";
     help_text := "usage" |}.

(** A camera that delivers four frames. *)
Definition studio_env : Env :=
  {| webcam := Some [frame_no 0; frame_no 1; frame_no 2; frame_no 3];
     disk := fun _ => None; videos := fun _ => None; picked := [];
     engine := fun _ => (ERR_NEED_MORE_IMGS, None);
     answer := button_no; destination := EmptyString;
     cxxopts_parse := fun _ => OptionException "no such option";
     help_text := "usage" |}.

(** RETURN, no key, RETURN, ESCAPE. *)
Definition studio_keys : list Z := [13; -1; 13; 27]%Z.

(** A video file of [n] frames, whatever its name. *)
Definition cinema_env (n : nat) : Env :=
  {| webcam := None; disk := fun _ => None;
     videos := fun _ => Some (map frame_no (seq 0 n)); picked := [];
     engine := fun _ => (ERR_NEED_MORE_IMGS, None);
     answer := button_no; destination := EmptyString;
     cxxopts_parse := fun _ => OptionException "no such option";
     help_text := "usage" |}.

(** A parse result in which exactly the options [present] were given. *)
Definition flags (present : list string) : ParseResult :=
  {| count := fun name => if existsb (String.eqb name) present then 1 else 0;
     as_size_t := fun _ => 0;
     as_Filenames := fun _ => [];
     as_Filename := fun _ => EmptyString |}.

(** A desk with a four-frame camera and one file picked in the browser, on
    which the command line parses to the options [present]. *)
Definition desk_env (present : list string) : Env :=
  {| webcam := Some [frame_no 0; frame_no 1; frame_no 2; frame_no 3];
     disk := sample_disk; videos := fun _ => None; picked := ["a.png"%string];
     engine := fun _ => (ERR_NEED_MORE_IMGS, None);
     answer := button_no; destination := EmptyString;
     cxxopts_parse := fun _ => Parsed (flags present);
     help_text := "usage" |}.

(** A parse result for [-i] with the given files. *)
Definition images_given (files : list Filename) : ParseResult :=
  {| count := fun name => if String.eqb name "images" then 1 else 0;
     as_size_t := fun _ => 0;
     as_Filenames := fun _ => files;
     as_Filename := fun _ => EmptyString |}.

(** A parse result for [-d] with the given id. *)
Definition demo_given (id : nat) : ParseResult :=
  {| count := fun name => if String.eqb name "demo" then 1 else 0;
     as_size_t := fun _ => id;
     as_Filenames := fun _ => [];
     as_Filename := fun _ => EmptyString |}.

(** Two decodable files on the command line, a stitcher that succeeds, and a
    user who answers "yes" at once and names a file. *)
Definition gallery_env (result : ParseResult) : Env :=
  {| webcam := None; disk := sample_disk; videos := fun _ => None; picked := [];
     engine := fun _ => (Stitcher_OK, Some (frame_no 7));
     answer := button_yes; destination := "pano.png";
     cxxopts_parse := fun _ => Parsed result;
     help_text := "usage" |}.

(** A user who answers "yes" on the third poll and names a file. *)
Definition saving_env : Env :=
  {| webcam := None; disk := fun _ => None; videos := fun _ => None; picked := [];
     engine := fun _ => (Stitcher_OK, Some (frame_no 7));
     answer := button_yes; destination := "pano.png";
     cxxopts_parse := fun _ => OptionException "no such option";
     help_text := "usage" |}.

(** * Properties *)

(** ** Running computations *)

Lemma bind_Done {A B} (m : M A) (k : A -> M B) w a w' (E : m w = Done a w') :
  bind m k w = k a w'.
Proof. unfold bind. now rewrite E. Qed.

Lemma bind_Aborted {A B} (m : M A) (k : A -> M B) w w' (E : m w = Aborted w') :
  bind m k w = Aborted w'.
Proof. unfold bind. now rewrite E. Qed.

Lemma bind_Spinning {A B} (m : M A) (k : A -> M B) w w' (E : m w = Spinning w') :
  bind m k w = Spinning w'.
Proof. unfold bind. now rewrite E. Qed.

Arguments bind_Done {A B} m k {w a w'} E.
Arguments bind_Aborted {A B} m k {w w'} E.
Arguments bind_Spinning {A B} m k {w w'} E.

Lemma forever_S {St} fuel (body : St -> M (Ctl * St)) s :
  forever (S fuel) body s =
  bind (body s) (fun r => match r with
                          | (Break, s') => ret s'
                          | (Continue, s') => forever fuel body s'
                          end).
Proof. reflexivity. Qed.

(** ** Dataset resolver *)

(** A [push_back] loop builds the image of its index range. *)
Lemma push_back_loop {A B} (f : A -> B) (l : list A) (acc : list B) :
  fold_left (fun acc i => acc ++ [f i]) l acc = acc ++ map f l.
Proof.
  revert acc. induction l as [|x l IH]; intros acc; simpl.
  - now rewrite app_nil_r.
  - rewrite IH. now rewrite <- app_assoc.
Qed.

Lemma demo_files_map entry :
  demo_files entry = map (demo_file entry) (seq 0 (snd entry)).
Proof. unfold demo_files. now rewrite push_back_loop. Qed.

Lemma to_string_digit i : i < 10 -> to_string i = digit i.
Proof.
  intros H. do 10 (destruct i as [|i]; [reflexivity|]). lia.
Qed.

Lemma demo_file_path name n i : demo_file (name, n) i = demo_path name i.
Proof.
  unfold demo_file, demo_path, index_field; simpl fst.
  destruct (Nat.ltb_spec i 10) as [Hlt|Hge].
  - replace (i <=? 9) with true by (symmetry; apply Nat.leb_le; lia).
    now rewrite to_string_digit.
  - replace (i <=? 9) with false by (symmetry; apply Nat.leb_gt; lia).
    reflexivity.
Qed.

Lemma index_field_two_digits i : i < 100 -> String.length (index_field i) = 2.
Proof.
  intros H. unfold index_field.
  do 100 (destruct i as [|i]; [reflexivity|]). lia.
Qed.

(** ** Static upload *)

Lemma imread_run file w :
  imread file w =
  Done (decoded (env w) (store w) file)
       {| env := env w; store := grown (env w) (store w) file; keys := keys w;
          pending := pending w; out := out w ++ [Imread file] |}.
Proof.
  unfold imread, decoded, grown, bind, emit, ask, alloc, ret; simpl.
  destruct (disk (env w) file); reflexivity.
Qed.

Lemma deref_grow st ext m p : deref st m = Some p -> deref (st ++ ext) m = Some p.
Proof.
  unfold deref. destruct (data m); [|discriminate].
  intros H. now apply lookup_app_l_Some.
Qed.

Lemma deref_decoded e st file :
  deref (grown e st file) (decoded e st file) = fresh <$> disk e file.
Proof.
  unfold deref, grown, decoded. destruct (disk e file) as [r|]; simpl; [|reflexivity].
  now rewrite list_lookup_middle.
Qed.

(** The loop of [uploadImages], unrolled: one entry and one [imread] per
    file, in order; buffers are only ever added. *)
Lemma uploadImages_run files : forall images w,
  exists new ext w',
    uploadImages images files w = Done (images ++ new) w' /\
    length new = length files /\
    env w' = env w /\ keys w' = keys w /\ pending w' = pending w /\
    store w' = store w ++ ext /\
    out w' = out w ++ map Imread files /\
    (forall i file, files !! i = Some file ->
       exists m, new !! i = Some m /\
                 deref (store w') m = fresh <$> disk (env w) file /\
                 (disk (env w) file = None -> m = Mat_empty)).
Proof.
  induction files as [|file files IH]; intros images w.
  - exists [], [], w. simpl. rewrite !app_nil_r. unfold ret.
    repeat split; try reflexivity. intros i f H. now rewrite lookup_nil in H.
  - simpl uploadImages. rewrite (bind_Done _ _ (imread_run file w)).
    match goal with |- context [uploadImages ?im files ?w1] =>
      destruct (IH im w1) as (new & ext & w' & Hrun & Hlen & He & Hk & Hp & Hst & Hout & Hnth)
    end.
    cbn [env store keys pending out] in He, Hk, Hp, Hst, Hout, Hnth.
    exists (Mat_copy (decoded (env w) (store w) file) :: new).
    exists (match disk (env w) file with Some r => fresh r :: ext | None => ext end), w'.
    rewrite Hrun. repeat split.
    + now rewrite <- app_assoc.
    + simpl. now rewrite Hlen.
    + exact He.
    + exact Hk.
    + exact Hp.
    + rewrite Hst. unfold grown. destruct (disk (env w) file); [now rewrite <- app_assoc|reflexivity].
    + rewrite Hout. simpl. now rewrite <- app_assoc.
    + intros [|i] f Hf; simpl in Hf.
      * injection Hf as <-. eexists. split; [reflexivity|]. split.
        -- rewrite Hst.
           pose proof (deref_decoded (env w) (store w) file) as Hd.
           change (deref (grown (env w) (store w) file ++ ext)
                         (decoded (env w) (store w) file) = fresh <$> disk (env w) file).
           destruct (disk (env w) file) as [r|] eqn:Hdisk.
           ++ now apply deref_grow.
           ++ unfold deref, decoded. now rewrite Hdisk.
        -- intros Hnone. unfold decoded. now rewrite Hnone.
      * destruct (Hnth i f Hf) as (m & Hm & Hd & Hn).
        exists m. repeat split; assumption.
Qed.

(** C7. For every list of paths, [uploadImages] appends exactly one entry
    per path, in the given order, whether or not the decode succeeds: entry
    [i] past the old contents is the matrix decoded from path [i], the empty
    matrix when that file cannot be decoded; one [imread] call is made per
    path and the batch is never cut short. *)
Theorem uploadImages_one_entry_per_path
    (files : list Filename) (images : list Image) (w : World) :
  exists images' w',
    uploadImages images files w = Done images' w' /\
    length images' = length images + length files /\
    take (length images) images' = images /\
    out w' = out w ++ map Imread files /\
    forall i file, files !! i = Some file ->
      exists m, images' !! (length images + i) = Some m /\
                deref (store w') m = fresh <$> disk (env w) file /\
                (disk (env w) file = None -> m = Mat_empty).
Proof.
  destruct (uploadImages_run files images w)
    as (new & ext & w' & Hrun & Hlen & _ & _ & _ & _ & Hout & Hnth).
  exists (images ++ new), w'. repeat split.
  - exact Hrun.
  - rewrite length_app. now rewrite Hlen.
  - now rewrite take_app_length.
  - exact Hout.
  - intros i file Hf. destruct (Hnth i file Hf) as (m & Hm & Hd & Hn).
    exists m. repeat split; try assumption.
    rewrite lookup_app_r by lia.
    now replace (length images + i - length images) with i by lia.
Qed.

(** C6. [runDemo] stops at its assertion, before any path is generated or
    any file read, for every id outside [0, catalogSize); for an id inside
    it reads exactly the [frameCount] paths
    [./demos/<name>/<name>-<NN>.png], index ascending from 0, [NN] padded
    with a zero up to 9 and unpadded above; the entry [("hotel", 8)], id 6,
    gives [hotel-00.png] to [hotel-07.png] under [hotel]. *)
Theorem runDemo_resolves (demo : nat) (images : list Image) (w : World) :
  (~ demo < length demos -> runDemo images demo w = Aborted w) /\
  (demo < length demos ->
     exists name frameCount,
       demos !! demo = Some (name, frameCount) /\
       demo_files (name, frameCount) = map (demo_path name) (seq 0 frameCount) /\
       runDemo images demo w =
         uploadImages images (map (demo_path name) (seq 0 frameCount)) w) /\
  (demos !! 6 = Some ("hotel"%string, 8) /\
   demo_files ("hotel"%string, 8) =
     [ "./demos/hotel/hotel-00.png"; "./demos/hotel/hotel-01.png";
       "./demos/hotel/hotel-02.png"; "./demos/hotel/hotel-03.png";
       "./demos/hotel/hotel-04.png"; "./demos/hotel/hotel-05.png";
       "./demos/hotel/hotel-06.png"; "./demos/hotel/hotel-07.png" ]%string).
Proof.
  split; [|split].
  - intros H. unfold runDemo.
    replace (demo <? length demos) with false by (symmetry; apply Nat.ltb_ge; lia).
    now rewrite andb_false_r.
  - intros H. destruct (lookup_lt_is_Some_2 demos demo H) as [[name n] Hl].
    assert (Hmap : demo_files (name, n) = map (demo_path name) (seq 0 n)).
    { rewrite demo_files_map. apply map_ext. intros i. apply demo_file_path. }
    exists name, n. split; [exact Hl|]. split; [exact Hmap|].
    unfold runDemo.
    replace (demo <? length demos) with true by (symmetry; apply Nat.ltb_lt; lia).
    replace (0 <=? demo) with true by (symmetry; apply Nat.leb_le; lia).
    rewrite (nth_lookup_Some _ _ (EmptyString, 0) _ Hl).
    now rewrite Hmap.
  - split; reflexivity.
Qed.

Lemma uploadImages_one_entry_per_path_witness :
  exists images' w',
    uploadImages [] ["a.png"; "b.png"; "c.png"]%string (initial sample_env [] 0)
      = Done images' w' /\
    length images' = 3 /\ images' !! 1 = Some Mat_empty.
Proof.
  destruct (uploadImages_one_entry_per_path
              ["a.png"; "b.png"; "c.png"]%string [] (initial sample_env [] 0))
    as (images' & w' & Hrun & Hlen & _ & _ & Hnth).
  destruct (Hnth 1 "b.png"%string eq_refl) as (m & Hm & _ & Hn).
  exists images', w'. split; [exact Hrun|]. split; [exact Hlen|].
  rewrite <- (Hn eq_refl). exact Hm.
Defined.

Lemma runDemo_resolves_witness :
  runDemo [] 11 (initial sample_env [] 0) = Aborted (initial sample_env [] 0) /\
  exists name frameCount,
    demos !! 6 = Some (name, frameCount) /\
    demo_files (name, frameCount) = map (demo_path name) (seq 0 frameCount) /\
    runDemo [] 6 (initial sample_env [] 0) =
      uploadImages [] (map (demo_path name) (seq 0 frameCount)) (initial sample_env [] 0).
Proof.
  split.
  - apply (runDemo_resolves 11 [] (initial sample_env [] 0)). simpl. lia.
  - apply (runDemo_resolves 6 [] (initial sample_env [] 0)). simpl. lia.
Defined.

(** ** Live capture *)

Lemma alter_last {A} (g : A -> A) (l : list A) (x : A) :
  alter g (length l) (l ++ [x]) = l ++ [g x].
Proof.
  replace (length l) with (length l + 0) by lia.
  now rewrite alter_app_r.
Qed.

Lemma waitKey_run delay w :
  waitKey delay w =
  Done (next_key (keys w))
       {| env := env w; store := store w; keys := tl (keys w);
          pending := pending w; out := out w ++ [WaitKey delay] |}.
Proof.
  unfold waitKey, bind, emit; simpl. destruct (keys w); reflexivity.
Qed.

(** Text drawn through a header copy shows in the original; text drawn
    through a clone does not. *)
Lemma putText_through_copy frame a px txt at_ font scale col thick w :
  data frame = Some a ->
  store w !! a = Some px ->
  exists w',
    putText (Mat_copy frame) txt at_ font scale col thick w = Done tt w' /\
    deref (store w') frame
    = Some (draw {| text := txt; org := at_; fontFace := font; fontScale := scale;
                    color := col; thickness := thick |} px).
Proof.
  intros Hd Hl. unfold putText. cbn [Mat_copy data]. rewrite Hd.
  eexists. split; [reflexivity|]. unfold deref. rewrite Hd. cbn [store].
  now rewrite list_lookup_alter_eq, Hl.
Qed.

Lemma putText_through_clone frame a px txt at_ font scale col thick w :
  data frame = Some a ->
  store w !! a = Some px ->
  exists w',
    (let* display_frame := Mat_clone frame in
     putText display_frame txt at_ font scale col thick) w = Done tt w' /\
    deref (store w') frame = Some px.
Proof.
  intros Hd Hl. unfold Mat_clone, peek, snapshot, deref, putText, bind, alloc, ret.
  rewrite Hd, Hl. cbn [data env store keys pending out].
  eexists. split; [reflexivity|]. cbn [store]. rewrite alter_last.
  now apply lookup_app_l_Some.
Qed.

(** One cycle with a frame: the frame gets a buffer of its own, the
    instructions are drawn into that very buffer through [display_frame],
    and the key decides what happens to [images] and to the loop. *)
Lemma cameraCapture_body_frame all p f images w :
  all !! p = Some f ->
  cameraCapture_body ({| source := Some all; position := Z.of_nat p |}, images) w =
  let key := next_key (keys w) in
  let frame := {| data := Some (length (store w)); rows := height f |} in
  Done (if (key =? RETURN)%Z then Continue
        else if (key =? ESCAPE)%Z then Break else Continue,
        ({| source := Some all; position := Z.of_nat (S p) |},
         if (key =? RETURN)%Z then images ++ [frame] else images))
       {| env := env w; store := store w ++ [annotated f]; keys := tl (keys w);
          pending := pending w;
          out := (out w ++ [Read (Z.of_nat p) (Some f);
                            Imshow "Camera feed" (Some (annotated f));
                            WaitKey 1]) ++ key_echo key |}.
Proof.
  intros Hf. unfold cameraCapture_body, read, frame_at.
  cbn [source position].
  replace (0 <=? Z.of_nat p)%Z with true by (symmetry; apply Z.leb_le; lia).
  rewrite Nat2Z.id, Hf.
  unfold imshow, peek, deref, putText.
  cbn [Mat_copy data rows].
  unfold bind, emit, alloc, ret, snapshot.
  cbn [env store keys pending out data rows].
  rewrite !alter_last, list_lookup_middle by reflexivity.
  rewrite waitKey_run. cbn [env store keys pending out].
  replace (Z.of_nat p + 1)%Z with (Z.of_nat (S p)) by lia.
  unfold key_echo, annotated, outline_pass, fill_pass.
  destruct (next_key (keys w) =? RETURN)%Z.
  - unfold bind, emit, ret. cbn [env store keys pending out].
    now rewrite <- !app_assoc.
  - destruct (next_key (keys w) =? ESCAPE)%Z.
    + unfold bind, emit, ret. cbn [env store keys pending out].
      now rewrite <- !app_assoc.
    + unfold bind, ret. cbn [env store keys pending out].
      now rewrite <- !app_assoc, app_nil_r.
Qed.

(** One cycle without a frame leaves the loop at once. *)
Lemma cameraCapture_body_end feed images w :
  frame_at feed = None ->
  cameraCapture_body (feed, images) w =
  Done (Break, (feed, images))
       {| env := env w; store := store w; keys := keys w; pending := pending w;
          out := out w ++ [Read (position feed) None] |}.
Proof.
  intros Hf. unfold cameraCapture_body, read. rewrite Hf.
  reflexivity.
Qed.

(** The capture loop from frame [p] on, given budget for every frame left. *)
Lemma cameraCapture_loop all rest : forall p images w fuel,
  drop p all = rest ->
  length rest < fuel ->
  exists feed' new ext w',
    forever fuel cameraCapture_body
            ({| source := Some all; position := Z.of_nat p |}, images) w
      = Done (feed', images ++ new) w' /\
    store w' = store w ++ ext /\
    Forall2 (holds (store w')) new (captured rest (keys w)).
Proof.
  induction rest as [|f rest IH]; intros p images w fuel Hdrop Hfuel.
  - destruct fuel as [|fuel]; [simpl in Hfuel; lia|].
    assert (Hnone : all !! p = None).
    { apply lookup_ge_None_2. apply (f_equal length) in Hdrop.
      rewrite length_drop in Hdrop. simpl in Hdrop. lia. }
    assert (Hend : frame_at {| source := Some all; position := Z.of_nat p |} = None).
    { unfold frame_at; cbn [source position]. rewrite Nat2Z.id, Hnone.
      now destruct (0 <=? Z.of_nat p)%Z. }
    eexists _, [], [], _. rewrite forever_S.
    rewrite (bind_Done _ _ (cameraCapture_body_end _ images w Hend)).
    unfold ret. rewrite !app_nil_r. cbn [store]. repeat split. constructor.
  - destruct fuel as [|fuel]; [simpl in Hfuel; lia|].
    simpl in Hfuel.
    assert (Hsome : all !! p = Some f).
    { rewrite <- (Nat.add_0_r p), <- lookup_drop, Hdrop. reflexivity. }
    assert (Hdrop' : drop (S p) all = rest).
    { rewrite (drop_S _ _ _ Hsome) in Hdrop. now injection Hdrop. }
    rewrite forever_S.
    rewrite (bind_Done _ _ (cameraCapture_body_frame all p f images w Hsome)).
    cbv zeta. simpl captured.
    destruct (next_key (keys w) =? RETURN)%Z eqn:Hret.
    + change (next_key (keys w) =? 13)%Z with (next_key (keys w) =? RETURN)%Z.
      rewrite Hret.
      match goal with |- context [forever fuel _ (_, ?im) ?w1] =>
        destruct (IH (S p) im w1 fuel Hdrop' ltac:(lia))
          as (feed' & new & ext & w' & Hrun & Hst & Hall)
      end.
      cbn [store keys] in Hst, Hall.
      eexists feed', (_ :: new), (annotated f :: ext), w'.
      split; [rewrite Hrun; now rewrite <- app_assoc|].
      split; [rewrite Hst; now rewrite <- app_assoc|].
      constructor; [|exact Hall].
      eexists. split; [reflexivity|].
      rewrite Hst. apply lookup_app_l_Some. now apply list_lookup_middle.
    + change (next_key (keys w) =? 13)%Z with (next_key (keys w) =? RETURN)%Z.
      rewrite Hret.
      change (next_key (keys w) =? 27)%Z with (next_key (keys w) =? ESCAPE)%Z.
      destruct (next_key (keys w) =? ESCAPE)%Z eqn:Hesc.
      * eexists _, [], [annotated f], _. unfold ret. rewrite app_nil_r.
        cbn [store]. repeat split. constructor.
      * match goal with |- context [forever fuel _ (_, ?im) ?w1] =>
          destruct (IH (S p) im w1 fuel Hdrop' ltac:(lia))
            as (feed' & new & ext & w' & Hrun & Hst & Hall)
        end.
        cbn [store keys] in Hst, Hall.
        eexists feed', new, (annotated f :: ext), w'.
        split; [exact Hrun|].
        split; [rewrite Hst; now rewrite <- app_assoc|exact Hall].
Qed.

Lemma cameraCapture_run fuel images w :
  length (default [] (webcam (env w))) < fuel ->
  exists new w',
    cameraCapture fuel images w = Done (images ++ new) w' /\
    Forall2 (holds (store w')) new (captured (default [] (webcam (env w))) (keys w)).
Proof.
  intros Hfuel. unfold cameraCapture, open_device.
  unfold bind at 1. unfold bind at 1. cbn [emit]. unfold bind at 1.
  cbn [ask ret env store keys pending out]. change (0 =? 0)%Z with true. cbv iota.
  destruct (webcam (env w)) as [all|] eqn:Hcam; cbn [default from_option id] in *.
  - match goal with |- context [bind _ _ ?w1] =>
      destruct (cameraCapture_loop all all 0 images w1 fuel eq_refl Hfuel)
        as (feed' & new & ext & w' & Hrun & Hst & Hall)
    end.
    cbn [store keys] in Hst, Hall.
    change (Z.of_nat 0) with 0%Z in Hrun.
    rewrite (bind_Done _ _ Hrun). cbv beta iota.
    exists new. eexists. split; [reflexivity|]. exact Hall.
  - destruct fuel as [|fuel]; [lia|]. rewrite forever_S.
    erewrite (bind_Done (bind _ _)); [|erewrite bind_Done; [|now apply cameraCapture_body_end]; reflexivity].
    exists []. eexists. rewrite app_nil_r. split; [reflexivity|]. constructor.
Qed.

(** C8. [cameraCapture] appends a frame exactly in the cycles in which
    RETURN (13) is polled, in the order of capture; a cycle that polls
    ESCAPE (27) ends the loop without appending; any other key, or none,
    appends nothing.  [captured] is that rule, and the matrices appended
    point at the frames it selects. *)
Theorem cameraCapture_appends_on_RETURN (fuel : nat) (images : list Image) (w : World) :
  length (default [] (webcam (env w))) < fuel ->
  (exists new w',
     cameraCapture fuel images w = Done (images ++ new) w' /\
     Forall2 (fun m r => raster <$> deref (store w') m = Some r)
             new (captured (default [] (webcam (env w))) (keys w))) /\
  (forall f fs ks, captured (f :: fs) (13 :: ks)%Z = f :: captured fs ks) /\
  (forall f fs ks, captured (f :: fs) (27 :: ks)%Z = []) /\
  (forall f fs k ks, k <> 13%Z -> k <> 27%Z ->
     captured (f :: fs) (k :: ks) = captured fs ks) /\
  (forall fs, captured fs [] = []).
Proof.
  intros Hfuel. split; [|repeat split].
  - destruct (cameraCapture_run fuel images w Hfuel) as (new & w' & Hrun & Hall).
    exists new, w'. split; [exact Hrun|].
    eapply Forall2_impl; [exact Hall|].
    intros m r (a & Hd & Hl). unfold deref. rewrite Hd, Hl. reflexivity.
  - intros f fs k ks H13 H27. simpl. unfold next_key; simpl.
    destruct (Z.eqb_spec k 13); [contradiction|].
    destruct (Z.eqb_spec k 27); [contradiction|]. reflexivity.
  - intros fs. induction fs as [|f fs IH]; [reflexivity|]. simpl. exact IH.
Qed.

Lemma cameraCapture_appends_on_RETURN_witness :
  exists new w',
    cameraCapture 5 [] (initial studio_env studio_keys 0) = Done ([] ++ new) w' /\
    Forall2 (fun m r => raster <$> deref (store w') m = Some r)
            new [frame_no 0; frame_no 2].
Proof.
  apply (cameraCapture_appends_on_RETURN 5 [] (initial studio_env studio_keys 0)).
  simpl. lia.
Defined.

(** C2 on the code: for the session frame, RETURN, frame, frame, RETURN,
    frame, ESCAPE, [cameraCapture] returns two matrices, and the buffer
    behind each holds the frame with both [putText] passes drawn into it:
    [display_frame] is a header copy, so the text lands in the frame that is
    pushed onto [images]. *)
Theorem cameraCapture_text_in_captured_frames :
  exists w',
    cameraCapture 5 [] (initial studio_env studio_keys 0)
      = Done [ {| data := Some 0; rows := 480 |}; {| data := Some 2; rows := 480 |} ] w' /\
    deref (store w') {| data := Some 0; rows := 480 |}
      = Some {| raster := frame_no 0; drawn := [outline_pass 480; fill_pass 480] |} /\
    deref (store w') {| data := Some 2; rows := 480 |}
      = Some {| raster := frame_no 2; drawn := [outline_pass 480; fill_pass 480] |}.
Proof.
  eexists. split; [vm_compute; reflexivity|]. split; vm_compute; reflexivity.
Qed.

(** ** Video sampler *)

Lemma frame_frequency_of_opened frames p frequency :
  frame_frequency_of {| source := Some frames; position := p |} frequency
  = stride_of (Z.of_nat (length frames)) frequency.
Proof. reflexivity. Qed.

(** [double_0_1] is the quotient 1/10 rounded to [double], and a tenth of
    100 frames is 10. *)
Lemma double_0_1_is_a_tenth :
  SFdiv prec emax (double_of_Z 1) (double_of_Z 10) = double_0_1.
Proof. vm_compute. reflexivity. Qed.

Lemma stride_of_100_frames : stride_of 100 double_0_1 = 10%Z.
Proof. vm_compute. reflexivity. Qed.

Lemma size_t_wrap_small z : (0 <= z < 2 ^ 64)%Z -> size_t_wrap z = z.
Proof. intros H. unfold size_t_wrap. now apply Z.mod_small. Qed.

Lemma size_t_wrap_range z : (0 <= size_t_wrap z < 2 ^ 64)%Z.
Proof. unfold size_t_wrap. apply Z.mod_pos_bound. lia. Qed.

Lemma stride_of_nonneg total frequency : (0 <= stride_of total frequency)%Z.
Proof. unfold stride_of, double_to_size_t. apply size_t_wrap_range. Qed.

(** One turn with a frame: the frame is pushed, the feed is sent to the
    recorded position plus the stride, and that becomes the recorded
    position. *)
Lemma videoCapture_body_frame frames stride p f images w :
  (0 <= p)%Z -> (0 <= stride)%Z -> (p + stride < 2 ^ 64)%Z ->
  frames !! Z.to_nat p = Some f ->
  videoCapture_body stride ({| source := Some frames; position := p |}, images, p) w =
  Done (Continue,
        ({| source := Some frames; position := (p + stride)%Z |},
         images ++ [{| data := Some (length (store w)); rows := height f |}],
         (p + stride)%Z))
       {| env := env w; store := store w ++ [fresh f]; keys := keys w;
          pending := pending w; out := out w ++ turn frames stride p |}.
Proof.
  intros Hp Hs Hsum Hf. unfold videoCapture_body, read, frame_at, set_pos, turn.
  cbn [source position].
  replace (0 <=? p)%Z with true by (symmetry; apply Z.leb_le; lia).
  rewrite Hf. unfold bind, emit, alloc, ret.
  cbn [env store keys pending out data rows Mat_copy source position get].
  rewrite !size_t_wrap_small by lia.
  now rewrite <- app_assoc.
Qed.

Lemma videoCapture_body_end stride feed images fp w :
  frame_at feed = None ->
  videoCapture_body stride (feed, images, fp) w =
  Done (Break, (feed, images, fp))
       {| env := env w; store := store w; keys := keys w; pending := pending w;
          out := out w ++ [Read (position feed) None] |}.
Proof.
  intros Hf. unfold videoCapture_body, read. rewrite Hf. reflexivity.
Qed.

Section Sampling.

Variable frames : list Raster.
Variable stride : Z.
Let total : Z := Z.of_nat (length frames).
Hypothesis stride_pos : (1 <= stride)%Z.
Hypothesis no_wrap : (total + stride < 2 ^ 64)%Z.

Lemma below_count k :
  k < sample_count total stride -> (Z.of_nat k * stride < total)%Z.
Proof.
  unfold sample_count. intros Hk.
  assert (Hq : (Z.of_nat k < (total + stride - 1) / stride)%Z) by lia.
  pose proof (Z.mul_div_le (total + stride - 1) stride ltac:(lia)) as Hle.
  nia.
Qed.

Lemma at_count : (total <= Z.of_nat (sample_count total stride) * stride)%Z.
Proof.
  unfold sample_count.
  assert (H0 : (0 <= (total + stride - 1) / stride)%Z)
    by (apply Z.div_pos; subst total; lia).
  rewrite Z2Nat.id by exact H0.
  pose proof (Z.mul_succ_div_gt (total + stride - 1) stride ltac:(lia)) as Hgt.
  nia.
Qed.

(** The sampling loop with [m] samples still to take, from sample [k]. *)
Lemma videoCapture_loop m : forall k images w fuel,
  k + m = sample_count total stride ->
  m < fuel ->
  exists feed' new ext w',
    forever fuel (videoCapture_body stride)
            ({| source := Some frames; position := (Z.of_nat k * stride)%Z |},
             images, (Z.of_nat k * stride)%Z) w
      = Done (feed', images ++ new, (Z.of_nat (k + m) * stride)%Z) w' /\
    store w' = store w ++ ext /\
    out w' = out w
             ++ concat (map (fun j => turn frames stride (Z.of_nat j * stride)%Z) (seq k m))
             ++ [Read (Z.of_nat (k + m) * stride)%Z None] /\
    Forall2 (fun mat j => exists r, frames !! Z.to_nat (Z.of_nat j * stride) = Some r /\
                                    deref (store w') mat = Some (fresh r))
            new (seq k m).
Proof.
  induction m as [|m IH]; intros k images w fuel Hk Hfuel.
  - destruct fuel as [|fuel]; [lia|].
    rewrite Nat.add_0_r in *.
    assert (Hend : frame_at {| source := Some frames;
                               position := (Z.of_nat k * stride)%Z |} = None).
    { unfold frame_at; cbn [source position].
      destruct (0 <=? Z.of_nat k * stride)%Z; [|reflexivity].
      apply lookup_ge_None_2. pose proof at_count. subst total. lia. }
    eexists _, [], [], _. rewrite forever_S.
    rewrite (bind_Done _ _ (videoCapture_body_end stride _ images _ w Hend)).
    unfold ret. rewrite !app_nil_r. cbn [store out position].
    repeat split. constructor.
  - destruct fuel as [|fuel]; [lia|].
    assert (Hlt : (Z.of_nat k * stride < total)%Z) by (apply below_count; lia).
    assert (Hnn : (0 <= Z.of_nat k * stride)%Z) by nia.
    assert (Hin : Z.to_nat (Z.of_nat k * stride) < length frames)
      by (subst total; lia).
    assert (Hsum : (Z.of_nat k * stride + stride < 2 ^ 64)%Z) by lia.
    destruct (lookup_lt_is_Some_2 frames (Z.to_nat (Z.of_nat k * stride)) Hin) as [f Hf].
    rewrite forever_S.
    rewrite (bind_Done _ _ (videoCapture_body_frame frames stride _ f images w
                              Hnn ltac:(lia) Hsum Hf)).
    replace (Z.of_nat k * stride + stride)%Z with (Z.of_nat (S k) * stride)%Z by lia.
    match goal with |- context [forever fuel _ (_, ?im, _) ?w1] =>
      destruct (IH (S k) im w1 fuel ltac:(lia) ltac:(lia))
        as (feed' & new & ext & w' & Hrun & Hst & Hout & Hall)
    end.
    cbn [store out] in Hst, Hout.
    eexists feed', (_ :: new), (fresh f :: ext), w'.
    replace (k + S m) with (S k + m) by lia.
    split; [rewrite Hrun; now rewrite <- app_assoc|].
    split; [rewrite Hst; now rewrite <- app_assoc|].
    split.
    + rewrite Hout. cbn [seq map concat]. unfold turn at 1 3.
      replace (Z.of_nat k * stride + stride)%Z with (Z.of_nat (S k) * stride)%Z by lia.
      now rewrite <- !app_assoc.
    + simpl seq. constructor; [|exact Hall].
      exists f. split; [exact Hf|].
      unfold deref; cbn [data]. rewrite Hst.
      apply lookup_app_l_Some. now apply list_lookup_middle.
Qed.

End Sampling.

(** [videoCapture] up to its loop: the assertion passes, the video opens. *)
Lemma videoCapture_enter fuel images video frequency frames w :
  videos (env w) video = Some frames ->
  frequency_ok frequency = true ->
  videoCapture fuel images video frequency w =
  (let* (feed, images, _) :=
     forever fuel (videoCapture_body (stride_of (Z.of_nat (length frames)) frequency))
             ({| source := Some frames; position := 0 |}, images, 0%Z) in
   release feed >> ret images)
    {| env := env w; store := store w; keys := keys w; pending := pending w;
       out := out w ++ [OpenVideo video] |}.
Proof.
  intros Hv Hok. unfold videoCapture, open_video. unfold frequency_ok in Hok.
  rewrite Hok. unfold assert.
  unfold bind at 1. unfold bind at 1. unfold bind at 1. cbn [emit].
  unfold bind at 1. cbn [ask ret env store keys pending out]. rewrite Hv.
  reflexivity.
Qed.

Lemma videoCapture_run fuel images video frequency frames w :
  videos (env w) video = Some frames ->
  frequency_ok frequency = true ->
  let total := Z.of_nat (length frames) in
  let stride := stride_of total frequency in
  (1 <= stride)%Z ->
  (total + stride < 2 ^ 64)%Z ->
  sample_count total stride < fuel ->
  exists new w',
    videoCapture fuel images video frequency w = Done (images ++ new) w' /\
    out w' = out w ++ [OpenVideo video]
             ++ concat (map (turn frames stride) (sampled_positions total stride))
             ++ [Read (Z.of_nat (sample_count total stride) * stride)%Z None; Release] /\
    Forall2 (fun mat p => exists r, frames !! Z.to_nat p = Some r /\
                                    deref (store w') mat = Some (fresh r))
            new (sampled_positions total stride).
Proof.
  intros Hv Hok total stride Hs Hwrap Hfuel.
  rewrite (videoCapture_enter fuel images video frequency frames w Hv Hok).
  fold total. fold stride.
  match goal with |- context [bind _ _ ?w1] =>
    destruct (videoCapture_loop frames stride Hs Hwrap (sample_count total stride)
                0 images w1 fuel eq_refl Hfuel)
      as (feed' & new & ext & w' & Hrun & Hst & Hout & Hall)
  end.
  cbn [store out] in Hst, Hout. change (Z.of_nat 0 * stride)%Z with 0%Z in Hrun.
  rewrite (bind_Done _ _ Hrun). cbv beta iota.
  exists new. eexists. split; [reflexivity|].
  unfold release, bind, emit, ret. cbn [store out]. split.
  - rewrite Hout. unfold sampled_positions. rewrite map_map.
    cbn [Nat.add]. now rewrite <- !app_assoc.
  - unfold sampled_positions. apply Forall2_fmap_r. exact Hall.
Qed.

(** With a stride of zero every turn reads frame 0 and sends the feed back
    to position 0: the budget always runs out. *)
Lemma videoCapture_spin frames f0 : forall fuel images w,
  frames !! 0 = Some f0 ->
  exists w',
    forever fuel (videoCapture_body 0)
            ({| source := Some frames; position := 0 |}, images, 0%Z) w = Spinning w' /\
    out w' = out w ++ concat (repeat (turn frames 0 0) fuel).
Proof.
  induction fuel as [|fuel IH]; intros images w Hf.
  - exists w. simpl. now rewrite app_nil_r.
  - rewrite forever_S.
    rewrite (bind_Done _ _ (videoCapture_body_frame frames 0 0 f0 images w
                              ltac:(lia) ltac:(lia) ltac:(lia) Hf)).
    change (0 + 0)%Z with 0%Z.
    match goal with |- context [forever fuel _ (_, ?im, _) ?w1] =>
      destruct (IH im w1 Hf) as (w' & Hrun & Hout)
    end.
    cbn [out] in Hout. exists w'. split; [exact Hrun|].
    rewrite Hout. cbn [repeat concat]. now rewrite <- app_assoc.
Qed.

(** C3. [videoCapture] takes [stride = total * frequency], the [double]
    product truncated to an integer, and reads at positions 0, [stride],
    [2*stride], ... for as long as a frame is there; each frame read is
    appended.  For 100 frames and frequency 0.1 the stride is 10: ten frames
    are read, at 0, 10, ..., 90, the read attempted at position 100 finds no
    frame, and the loop stops. *)
Theorem videoCapture_reads_every_stride :
  (forall fuel images video frequency frames w,
     videos (env w) video = Some frames ->
     frequency_ok frequency = true ->
     let total := Z.of_nat (length frames) in
     let stride := stride_of total frequency in
     (1 <= stride)%Z ->
     (total + stride < 2 ^ 64)%Z ->
     sample_count total stride < fuel ->
     frame_frequency_of {| source := Some frames; position := 0 |} frequency = stride /\
     exists new w',
       videoCapture fuel images video frequency w = Done (images ++ new) w' /\
       out w' = out w ++ [OpenVideo video]
                ++ concat (map (turn frames stride) (sampled_positions total stride))
                ++ [Read (Z.of_nat (sample_count total stride) * stride)%Z None; Release] /\
       Forall2 (fun mat p => exists r, frames !! Z.to_nat p = Some r /\
                                       deref (store w') mat = Some (fresh r))
               new (sampled_positions total stride)) /\
  (forall fuel images video frames w,
     videos (env w) video = Some frames ->
     length frames = 100 ->
     10 < fuel ->
     stride_of 100 double_0_1 = 10%Z /\
     exists new w',
       videoCapture fuel images video double_0_1 w = Done (images ++ new) w' /\
       length new = 10 /\
       out w' = out w ++ [OpenVideo video]
                ++ concat (map (turn frames 10) [0; 10; 20; 30; 40; 50; 60; 70; 80; 90]%Z)
                ++ [Read 100 None; Release] /\
       Forall2 (fun mat p => exists r, frames !! Z.to_nat p = Some r /\
                                       deref (store w') mat = Some (fresh r))
               new [0; 10; 20; 30; 40; 50; 60; 70; 80; 90]%Z).
Proof.
  split.
  - intros fuel images video frequency frames w Hv Hok total stride Hs Hwrap Hfuel.
    split; [apply frame_frequency_of_opened|].
    exact (videoCapture_run fuel images video frequency frames w Hv Hok Hs Hwrap Hfuel).
  - intros fuel images video frames w Hv Hlen Hfuel.
    pose proof stride_of_100_frames as Hstride.
    split; [exact Hstride|].
    pose proof (videoCapture_run fuel images video double_0_1 frames w Hv
                  ltac:(vm_compute; reflexivity)) as Hrun.
    rewrite Hlen in Hrun. change (Z.of_nat 100) with 100%Z in Hrun.
    cbv zeta in Hrun. rewrite Hstride in Hrun.
    change (sample_count 100 10) with 10 in Hrun.
    change (sampled_positions 100 10) with [0; 10; 20; 30; 40; 50; 60; 70; 80; 90]%Z in Hrun.
    destruct (Hrun ltac:(lia) ltac:(lia) Hfuel) as (new & w' & Hdone & Hout & Hall).
    exists new, w'. split; [exact Hdone|]. split; [|split; [exact Hout|exact Hall]].
    now rewrite (Forall2_length _ _ _ Hall).
Qed.

(** C10. For an opened video with at least one frame, the loop of
    [videoCapture] comes to an end exactly when the truncated stride is at
    least 1.  With a stride of 0 every turn reads frame 0 and sets the
    position back to 0, however many turns are allowed. *)
Theorem videoCapture_ends_iff_stride_positive
    (images : list Image) (video : Filename) (frequency : spec_float)
    (frames : list Raster) (w : World) :
  videos (env w) video = Some frames ->
  frames <> [] ->
  frequency_ok frequency = true ->
  let total := Z.of_nat (length frames) in
  let stride := stride_of total frequency in
  (total + stride < 2 ^ 64)%Z ->
  ((exists fuel images' w', videoCapture fuel images video frequency w = Done images' w')
   <-> (1 <= stride)%Z) /\
  (stride = 0%Z ->
   forall fuel, exists w',
     videoCapture fuel images video frequency w = Spinning w' /\
     out w' = out w ++ [OpenVideo video]
              ++ concat (repeat [Read 0 (frames !! 0); Seek 0] fuel)).
Proof.
  intros Hv Hne Hok total stride Hwrap.
  assert (Hspin : stride = 0%Z ->
            forall fuel, exists w',
              videoCapture fuel images video frequency w = Spinning w' /\
              out w' = out w ++ [OpenVideo video]
                       ++ concat (repeat [Read 0 (frames !! 0); Seek 0] fuel)).
  { intros H0 fuel.
    rewrite (videoCapture_enter fuel images video frequency frames w Hv Hok).
    fold total. fold stride. rewrite H0.
    destruct frames as [|f0 frames']; [contradiction|].
    match goal with |- context [bind _ _ ?w1] =>
      destruct (videoCapture_spin (f0 :: frames') f0 fuel images w1 eq_refl)
        as (w' & Hrun & Hout)
    end.
    exists w'. rewrite (bind_Spinning _ _ Hrun). split; [reflexivity|].
    rewrite Hout. cbn [out]. unfold turn. now rewrite <- app_assoc. }
  split; [split|exact Hspin].
  - intros (fuel & images' & w' & Hdone).
    destruct (Z_lt_le_dec stride 1) as [Hlt|Hge]; [|exact Hge].
    pose proof (stride_of_nonneg total frequency) as Hnn. fold stride in Hnn.
    destruct (Hspin ltac:(lia) fuel) as (w'' & Hrun & _).
    rewrite Hrun in Hdone. discriminate.
  - intros Hs.
    destruct (videoCapture_run (S (sample_count total stride)) images video frequency
                frames w Hv Hok Hs Hwrap (Nat.lt_succ_diag_r _)) as (new & w' & Hdone & _).
    now exists (S (sample_count total stride)), (images ++ new), w'.
Qed.

Lemma videoCapture_reads_every_stride_witness :
  exists new w',
    videoCapture 11 [] "clip.mp4" double_0_1 (initial (cinema_env 100) [] 0)
      = Done ([] ++ new) w' /\
    length new = 10 /\
    out w' = [] ++ [OpenVideo "clip.mp4"]
             ++ concat (map (turn (map frame_no (seq 0 100)) 10)
                            [0; 10; 20; 30; 40; 50; 60; 70; 80; 90]%Z)
             ++ [Read 100 None; Release].
Proof.
  destruct videoCapture_reads_every_stride as [_ H100].
  destruct (H100 11 [] "clip.mp4"%string (map frame_no (seq 0 100))
                 (initial (cinema_env 100) [] 0) eq_refl eq_refl ltac:(lia))
    as (_ & new & w' & Hdone & Hlen & Hout & _).
  exists new, w'. split; [exact Hdone|]. split; [exact Hlen|exact Hout].
Defined.

Lemma videoCapture_ends_iff_stride_positive_witness :
  exists w',
    videoCapture 50 [] "clip.mp4" double_0_1 (initial (cinema_env 9) [] 0) = Spinning w' /\
    out w' = [] ++ [OpenVideo "clip.mp4"]
             ++ concat (repeat [Read 0 (Some (frame_no 0)); Seek 0] 50).
Proof.
  refine (proj2 (videoCapture_ends_iff_stride_positive [] "clip.mp4"%string double_0_1
                   (map frame_no (seq 0 9)) (initial (cinema_env 9) [] 0) _ _ _ _) _ 50).
  - reflexivity.
  - discriminate.
  - vm_compute; reflexivity.
  - vm_compute; reflexivity.
  - vm_compute; reflexivity.
Defined.

(** ** Result workflow *)

Lemma encodes_save_question n : encodes (save_question n) = [].
Proof.
  unfold save_question, encodes. cbn [omap list_omap].
  induction n as [|n IH]; [reflexivity|exact IH].
Qed.

Lemma notifications_save_question n : notifications (save_question n) = [].
Proof.
  unfold save_question, notifications. cbn [omap list_omap].
  induction n as [|n IH]; [reflexivity|exact IH].
Qed.

(** [while ( ! save.ready(1000) );] for a dialog answered after [n] polls. *)
Lemma wait_until_ready n : forall fuel w,
  pending w = n ->
  n < fuel ->
  forever fuel poll tt w =
  Done tt {| env := env w; store := store w; keys := keys w; pending := 0;
             out := out w ++ repeat (Ready 1000) (S n) |}.
Proof.
  induction n as [|n IH]; intros fuel w Hp Hfuel;
    (destruct fuel as [|fuel]; [lia|]); rewrite forever_S;
    unfold poll at 1, ready, bind, emit, ret; cbn [env store keys pending out];
    rewrite Hp.
  - reflexivity.
  - rewrite IH by (cbn [pending]; lia). cbn [env store keys pending out].
    cbn [repeat]. now rewrite <- app_assoc.
Qed.

Lemma promptSaveImage_run fuel image w :
  pending w < fuel ->
  promptSaveImage fuel image w =
  Done tt {| env := env w; store := store w; keys := keys w; pending := 0;
             out := out w ++ save_question (S (pending w))
                          ++ save_steps (env w) (deref (store w) image) |}.
Proof.
  intros Hfuel. unfold promptSaveImage, message.
  unfold bind at 1. cbn [emit].
  unfold bind at 1.
  change (fun _ : unit => let* r := ready 1000 in ret (if r : bool then Break else Continue, tt))
    with poll.
  rewrite (wait_until_ready (pending w)) by (cbn [pending]; (reflexivity || lia)).
  cbn [env store keys pending out].
  unfold result_of_message, save_steps, save_question.
  unfold bind at 1. cbn [ask env].
  destruct (answer (env w));
    try (unfold ret; cbn [repeat]; rewrite <- !app_assoc, ?app_nil_r; reflexivity).
  unfold save_file. unfold bind at 1. unfold bind at 1. cbn [emit ask env store keys pending out].
  destruct (String.eqb (destination (env w)) "").
  - unfold ret. cbn [repeat]. now rewrite <- !app_assoc.
  - unfold imwrite, showNotification, notify, peek, bind, emit, snapshot, ret.
    cbn [env store keys pending out repeat]. now rewrite <- !app_assoc.
Qed.

Lemma stitch_run_OK mode images w r :
  engine (env w) (map (deref (store w)) images) = (Stitcher_OK, Some r) ->
  stitch mode images w =
  Done (Stitcher_OK, {| data := Some (length (store w)); rows := height r |})
       {| env := env w; store := store w ++ [fresh r]; keys := keys w; pending := pending w;
          out := out w ++ [Stitch mode (map (deref (store w)) images)] |}.
Proof.
  intros Heng. unfold stitch, bind, snapshot, emit, ask.
  cbn [env store keys pending out]. now rewrite Heng.
Qed.

Lemma createPanorama_run_OK fuel images w r :
  engine (env w) (map (deref (store w)) images) = (Stitcher_OK, Some r) ->
  pending w < fuel ->
  createPanorama fuel images w =
  Done tt {| env := env w; store := store w ++ [fresh r]; keys := tl (keys w); pending := 0;
             out := out w ++ stitched_preview (map (deref (store w)) images) r
                          ++ save_question (S (pending w))
                          ++ save_steps (env w) (Some (fresh r))
                          ++ [DestroyAllWindows] |}.
Proof.
  intros Heng Hfuel. unfold createPanorama.
  unfold bind at 1. cbn [emit]. unfold bind at 1. cbn [emit].
  erewrite bind_Done; [|apply stitch_run_OK; cbn [env store]; exact Heng].
  cbn [env store keys pending out].
  unfold showNotification, notify, imshow, peek, snapshot, deref.
  unfold bind at 1. unfold bind at 1. cbn [emit]. unfold bind at 1.
  cbn [emit env store keys pending out].
  unfold bind at 1. unfold bind at 1. unfold bind at 1.
  cbn [ret data env store keys pending out].
  rewrite list_lookup_middle by reflexivity.
  cbn [emit env store keys pending out].
  unfold bind at 1. rewrite waitKey_run. cbn [env store keys pending out].
  unfold bind at 1. rewrite promptSaveImage_run by (cbn [pending]; lia).
  cbn [env store keys pending out]. unfold deref; cbn [data].
  rewrite list_lookup_middle by reflexivity.
  unfold destroyAllWindows, emit, stitched_preview. cbn [env store keys pending out].
  now rewrite <- !app_assoc.
Qed.

(** C9. After the save question is answered: "yes" with a non-empty path
    gives exactly one [imwrite], to that path, followed by exactly one
    notification, the confirmation; any other answer, or an empty path,
    gives no [imwrite] and no notification.  Within [createPanorama] after a
    successful stitch the same holds of the encode calls, and the only other
    notification is the one announcing the panorama. *)
Theorem save_workflow_encodes_once (fuel : nat) (image : Image) (w : World) :
  pending w < fuel ->
  let dir := destination (env w) in
  let confirmation :=
    [ Imwrite dir (deref (store w) image);
      Cout GREEN; Cout (("Panorama saved at: " ++ dir) ++ endl)%string;
      Notify "Panorama Stitcher" ("Panorama saved at: " ++ dir)%string icon_info ] in
  (exists new w',
     promptSaveImage fuel image w = Done tt w' /\
     out w' = out w ++ new /\
     (answer (env w) = button_yes -> dir <> EmptyString ->
        encodes new = [(dir, deref (store w) image)] /\
        notifications new
          = [("Panorama Stitcher", "Panorama saved at: " ++ dir, icon_info)%string] /\
        exists before,
          new = before ++ confirmation /\ encodes before = [] /\ notifications before = []) /\
     (answer (env w) <> button_yes \/ dir = EmptyString ->
        encodes new = [] /\ notifications new = [])) /\
  (forall images r,
     engine (env w) (map (deref (store w)) images) = (Stitcher_OK, Some r) ->
     exists new w',
       createPanorama fuel images w = Done tt w' /\
       out w' = out w ++ new /\
       (answer (env w) = button_yes -> dir <> EmptyString ->
          encodes new = [(dir, Some (fresh r))] /\
          notifications new
            = [("Panorama Stitcher", "Panorama successfully created!", icon_info);
               ("Panorama Stitcher", "Panorama saved at: " ++ dir, icon_info)]%string) /\
       (answer (env w) <> button_yes \/ dir = EmptyString ->
          encodes new = [] /\
          notifications new
            = [("Panorama Stitcher", "Panorama successfully created!", icon_info)]%string)).
Proof.
  intros Hfuel dir confirmation.
  assert (Hyes : forall px, answer (env w) = button_yes -> dir <> EmptyString ->
            save_steps (env w) px
            = [SaveFileDialog "Choose save location" "./";
               Imwrite dir px; Cout GREEN;
               Cout (("Panorama saved at: " ++ dir) ++ endl)%string;
               Notify "Panorama Stitcher" ("Panorama saved at: " ++ dir)%string icon_info]).
  { intros px Ha Hd. unfold save_steps. rewrite Ha.
    apply String.eqb_neq in Hd. fold dir. now rewrite Hd. }
  assert (Hno : forall px, answer (env w) <> button_yes \/ dir = EmptyString ->
            encodes (save_steps (env w) px) = [] /\ notifications (save_steps (env w) px) = []).
  { intros px [Ha|Hd]; unfold save_steps.
    - destruct (answer (env w)); try (split; reflexivity). contradiction.
    - fold dir. rewrite Hd. destruct (answer (env w)); split; reflexivity. }
  split.
  - exists (save_question (S (pending w)) ++ save_steps (env w) (deref (store w) image)).
    eexists. split; [exact (promptSaveImage_run fuel image w Hfuel)|].
    cbn [out]. split; [reflexivity|]. split.
    + intros Ha Hd. rewrite (Hyes _ Ha Hd).
      unfold encodes, notifications. rewrite !omap_app.
      fold (encodes (save_question (S (pending w)))).
      fold (notifications (save_question (S (pending w)))).
      rewrite encodes_save_question, notifications_save_question.
      split; [reflexivity|]. split; [reflexivity|].
      exists (save_question (S (pending w)) ++ [SaveFileDialog "Choose save location" "./"]).
      split; [now rewrite <- app_assoc|].
      unfold encodes, notifications. rewrite !omap_app.
      fold (encodes (save_question (S (pending w)))).
      fold (notifications (save_question (S (pending w)))).
      rewrite encodes_save_question, notifications_save_question.
      split; reflexivity.
    + intros Hc. destruct (Hno (deref (store w) image) Hc) as [He Hn].
      unfold encodes, notifications in *. rewrite !omap_app, He, Hn.
      fold (encodes (save_question (S (pending w)))).
      fold (notifications (save_question (S (pending w)))).
      rewrite encodes_save_question, notifications_save_question.
      split; reflexivity.
  - intros images r Heng.
    eexists. eexists. split; [exact (createPanorama_run_OK fuel images w r Heng Hfuel)|].
    cbn [out]. split; [reflexivity|].
    unfold encodes, notifications. rewrite !omap_app.
    fold (encodes (save_question (S (pending w)))).
    fold (notifications (save_question (S (pending w)))).
    rewrite encodes_save_question, notifications_save_question.
    split.
    + intros Ha Hd. rewrite (Hyes _ Ha Hd). split; reflexivity.
    + intros Hc. destruct (Hno (Some (fresh r)) Hc) as [He Hn].
      unfold encodes, notifications in He, Hn. rewrite He, Hn. split; reflexivity.
Qed.

(** ** Which calls a computation can add to the trace *)

Section Preserves.

Variable P : Event -> Prop.

Lemma preserves_ret {A} (a : A) : preserves P (ret a).
Proof. intros w H. exact H. Qed.

Lemma preserves_bind {A B} (m : M A) (k : A -> M B) :
  preserves P m -> (forall a, preserves P (k a)) -> preserves P (bind m k).
Proof.
  intros Hm Hk w H. specialize (Hm w H). unfold bind.
  destruct (m w) as [a w'|w'|w']; cbn [world_of] in *; [now apply Hk|exact Hm|exact Hm].
Qed.

Lemma preserves_emit e : P e -> preserves P (emit e).
Proof.
  intros He w H. cbn [emit world_of out]. apply Forall_app. split; [exact H|].
  now constructor.
Qed.

Lemma preserves_assert b : preserves P (assert b).
Proof. intros w H. unfold assert. now destruct b. Qed.

Lemma preserves_ask {A} (f : Env -> A) : preserves P (ask f).
Proof. intros w H. exact H. Qed.

Lemma preserves_alloc p : preserves P (alloc p).
Proof. intros w H. exact H. Qed.

Lemma preserves_snapshot : preserves P snapshot.
Proof. intros w H. exact H. Qed.

Lemma preserves_peek m : preserves P (peek m).
Proof. intros w H. exact H. Qed.

Lemma preserves_putText img txt at_ font scale col thick :
  preserves P (putText img txt at_ font scale col thick).
Proof. intros w H. unfold putText. now destruct (data img). Qed.

Lemma preserves_forever {St} (body : St -> M (Ctl * St)) fuel :
  (forall s, preserves P (body s)) -> forall s, preserves P (forever fuel body s).
Proof.
  intros Hbody. induction fuel as [|fuel IH]; intros s.
  - intros w H. exact H.
  - rewrite forever_S. apply preserves_bind; [apply Hbody|].
    intros [[|] s']; [apply IH|apply preserves_ret].
Qed.

(** From here on [P] admits every call but, possibly, [Stitch]. *)
Hypothesis P_other : forall e, not_Stitch e -> P e.

Lemma preserves_waitKey delay : preserves P (waitKey delay).
Proof.
  apply preserves_bind; [apply preserves_emit, P_other; exact I|].
  intros _ w H. now destruct (keys w).
Qed.

Lemma preserves_ready timeout : preserves P (ready timeout).
Proof.
  apply preserves_bind; [apply preserves_emit, P_other; exact I|].
  intros _ w H. now destruct (pending w).
Qed.

Ltac quiet :=
  repeat first
    [ apply preserves_ret | apply preserves_ask | apply preserves_alloc
    | apply preserves_peek | apply preserves_assert | apply preserves_putText
    | apply preserves_waitKey | apply preserves_ready
    | apply preserves_emit, P_other; exact I
    | apply preserves_bind
    | match goal with
      | |- preserves _ (match ?x with _ => _ end) => destruct x
      | |- forall _, _ => intro
      end ].

Lemma preserves_read feed : preserves P (read feed).
Proof. unfold read. quiet. Qed.

Lemma preserves_imread file : preserves P (imread file).
Proof. unfold imread. quiet. Qed.

Lemma preserves_showNotification msg : preserves P (showNotification msg).
Proof. unfold showNotification, notify. quiet. Qed.

Lemma preserves_showError msg : preserves P (showError msg).
Proof. unfold showError, notify. quiet. Qed.

Lemma preserves_uploadImages files : forall images, preserves P (uploadImages images files).
Proof.
  induction files as [|file files IH]; intros images; simpl.
  - apply preserves_ret.
  - apply preserves_bind; [apply preserves_imread|]. intros image. apply IH.
Qed.

Lemma preserves_runDemo images demo : preserves P (runDemo images demo).
Proof.
  unfold runDemo. apply preserves_bind; [apply preserves_assert|].
  intros _. apply preserves_uploadImages.
Qed.

Lemma preserves_cameraCapture fuel images : preserves P (cameraCapture fuel images).
Proof.
  unfold cameraCapture, open_device, release, destroyAllWindows.
  apply preserves_bind; [quiet|]. intros feed.
  apply preserves_bind; [|quiet].
  apply preserves_forever. intros [feed' images'].
  unfold cameraCapture_body, imshow.
  apply preserves_bind; [apply preserves_read|]. quiet.
Qed.

Lemma preserves_fileSelectGUI images : preserves P (fileSelectGUI images).
Proof.
  unfold fileSelectGUI, open_file.
  apply preserves_bind; [quiet|]. intros files. apply preserves_uploadImages.
Qed.

Lemma preserves_videoCapture fuel images video frequency :
  preserves P (videoCapture fuel images video frequency).
Proof.
  unfold videoCapture, open_video, release.
  apply preserves_bind; [apply preserves_assert|]. intros _.
  apply preserves_bind; [quiet|]. intros feed.
  apply preserves_bind; [|quiet].
  apply preserves_forever. intros [[feed' images'] fp].
  unfold videoCapture_body, set_pos.
  apply preserves_bind; [apply preserves_read|]. quiet.
Qed.

Lemma preserves_parseArgs fuel argv images : preserves P (parseArgs fuel argv images).
Proof.
  unfold parseArgs. apply preserves_bind; [apply preserves_ask|]. intros parse.
  destruct (parse argv) as [result|what]; [|quiet].
  repeat match goal with
         | |- preserves _ (if ?b then _ else _) => destruct b
         end;
    try (apply preserves_bind;
         [ first [ apply preserves_runDemo | apply preserves_cameraCapture
                 | apply preserves_fileSelectGUI | apply preserves_uploadImages
                 | apply preserves_videoCapture ]
         | intros; apply preserves_ret ]);
    quiet.
Qed.

Lemma preserves_promptSaveImage fuel image : preserves P (promptSaveImage fuel image).
Proof.
  unfold promptSaveImage, message, result_of_message, save_file, imwrite.
  apply preserves_bind; [quiet|]. intros _.
  apply preserves_bind; [apply preserves_forever; intros []; quiet|]. intros _.
  apply preserves_bind; [quiet|]. intros button.
  destruct button; try apply preserves_ret.
  apply preserves_bind; [quiet|]. intros dir.
  destruct (String.eqb dir ""); [apply preserves_ret|].
  apply preserves_bind; [quiet|]. intros _. apply preserves_showNotification.
Qed.

(** [createPanorama] adds one [Stitch] call, over all of [images]. *)
Lemma preserves_createPanorama fuel images :
  (forall mode inputs, length inputs = length images -> P (Stitch mode inputs)) ->
  preserves P (createPanorama fuel images).
Proof.
  intros HS. unfold createPanorama.
  apply preserves_bind; [quiet|]. intros _.
  apply preserves_bind; [quiet|]. intros _.
  apply preserves_bind.
  - unfold stitch. apply preserves_bind; [apply preserves_snapshot|]. intros st.
    apply preserves_bind; [apply preserves_emit, HS; now rewrite length_map|]. quiet.
  - intros [status panorama]. unfold imshow, destroyAllWindows.
    destruct status; try apply preserves_showError.
    apply preserves_bind; [apply preserves_showNotification|]. intros _.
    apply preserves_bind; [quiet|]. intros _.
    apply preserves_bind; [quiet|]. intros _.
    apply preserves_bind; [apply preserves_promptSaveImage|]. quiet.
Qed.

End Preserves.

(** ** Orchestration *)

Lemma not_Stitch_of_two e : not_Stitch e -> Stitch_of_two e.
Proof. now destruct e. Qed.

Lemma preserves_main fuel argv : preserves Stitch_of_two (main fuel argv).
Proof.
  unfold main. apply preserves_bind.
  - apply preserves_parseArgs. exact not_Stitch_of_two.
  - intros [status images]. apply preserves_bind; [|intros _; apply preserves_ret].
    destruct (Status_eqb status OK); [|apply preserves_ret].
    destruct (1 <? length images) eqn:Hlen.
    + apply preserves_createPanorama; [exact not_Stitch_of_two|].
      intros mode inputs Hin. cbn [Stitch_of_two]. apply Nat.ltb_lt in Hlen. lia.
    + apply preserves_showError. exact not_Stitch_of_two.
Qed.

Lemma showError_run msg w :
  showError msg w =
  Done tt {| env := env w; store := store w; keys := keys w; pending := pending w;
             out := out w ++ error_report msg |}.
Proof.
  unfold showError, notify, bind, emit, error_report. cbn [env store keys pending out].
  now rewrite <- !app_assoc.
Qed.

(** Every normal return of [main] carries exit status 0. *)
Lemma main_returns_zero fuel argv w z w' : main fuel argv w = Done z w' -> z = 0%Z.
Proof.
  unfold main. unfold bind at 1.
  destruct (parseArgs fuel argv [] w) as [[status images] w1|w1|w1]; try discriminate.
  unfold bind.
  destruct ((if Status_eqb status OK
             then if 1 <? length images then createPanorama fuel images
                  else showError "Not enough images provided"
             else ret tt) w1); try discriminate.
  unfold ret. now intros [= <- _].
Qed.

(** C1. Started from scratch, [main] hands the stitcher nothing but sets of
    two or more images; and when acquisition succeeds with fewer than two,
    [main] makes no [Stitch] call at all, reports "Not enough images
    provided" through [showError], and returns. *)
Theorem main_stitches_two_or_more
    (fuel : nat) (argv : list string) (e : Env) (ks : list Z) (n : nat) :
  (forall mode inputs,
     In (Stitch mode inputs) (out (world_of (main fuel argv (initial e ks n)))) ->
     2 <= length inputs) /\
  (forall images w1,
     parseArgs fuel argv [] (initial e ks n) = Done (OK, images) w1 ->
     length images < 2 ->
     exists w2,
       main fuel argv (initial e ks n) = Done 0%Z w2 /\
       out w2 = out w1 ++ error_report "Not enough images provided" /\
       Forall not_Stitch (out w2)).
Proof.
  split.
  - intros mode inputs Hin.
    pose proof (preserves_main fuel argv (initial e ks n) (Forall_nil_2 _)) as Hall.
    exact (proj1 (List.Forall_forall _ _) Hall _ Hin).
  - intros images w1 Hparse Hlen.
    pose proof (preserves_parseArgs not_Stitch (fun _ H => H) fuel argv []
                  (initial e ks n) (Forall_nil_2 _)) as Hquiet.
    rewrite Hparse in Hquiet. cbn [world_of] in Hquiet.
    unfold main. rewrite (bind_Done _ _ Hparse). cbn [Status_eqb].
    replace (1 <? length images) with false by (symmetry; apply Nat.ltb_ge; lia).
    rewrite (bind_Done _ _ (showError_run _ w1)).
    eexists. split; [reflexivity|]. cbn [out]. split; [reflexivity|].
    apply Forall_app. split; [exact Hquiet|]. repeat constructor.
Qed.

Lemma main_stitches_two_or_more_witness :
  exists w1 w2,
    parseArgs 1 ["panorama"; "-s"]%string [] (initial (desk_env ["select"%string]) [] 0)
      = Done (OK, [{| data := Some 0; rows := 480 |}]) w1 /\
    main 1 ["panorama"; "-s"]%string (initial (desk_env ["select"%string]) [] 0)
      = Done 0%Z w2 /\
    out w2 = out w1 ++ error_report "Not enough images provided" /\
    Forall not_Stitch (out w2).
Proof.
  eexists.
  assert (Hparse : parseArgs 1 ["panorama"; "-s"]%string []
                             (initial (desk_env ["select"%string]) [] 0)
                   = Done (OK, [{| data := Some 0; rows := 480 |}]) _) by reflexivity.
  destruct (main_stitches_two_or_more 1 ["panorama"; "-s"]%string
              (desk_env ["select"%string]) [] 0) as [_ Hfew].
  destruct (Hfew _ _ Hparse ltac:(simpl; lia)) as (w2 & Hmain & Hout & Hquiet).
  exists w2. split; [exact Hparse|]. split; [exact Hmain|]. split; [exact Hout|exact Hquiet].
Defined.

(** When the parser throws, [parseArgs] yields [ERROR], and [main] prints
    the message and returns 0 all the same. *)
Lemma main_after_OptionException fuel argv w what :
  cxxopts_parse (env w) argv = OptionException what ->
  main fuel argv w =
  Done 0%Z {| env := env w; store := store w; keys := keys w; pending := pending w;
              out := out w ++ [Cout RED; Cout ("Error parsing args: " ++ what ++ endl)%string] |}.
Proof.
  intros Hparse. unfold main, parseArgs.
  unfold bind at 1. unfold bind at 1. cbn [ask]. rewrite Hparse.
  unfold bind, emit, ret. cbn [env store keys pending out Status_eqb].
  now rewrite <- app_assoc.
Qed.

(** Help, and a command line without any recognised option, end with 0. *)
Lemma main_after_help_or_nothing fuel argv w result :
  cxxopts_parse (env w) argv = Parsed result ->
  0 < count result "help" \/ (forall name, count result name = 0) ->
  exists w', main fuel argv w = Done 0%Z w' /\ store w' = store w.
Proof.
  intros Hparse Hcase. unfold main, parseArgs.
  unfold bind at 1. unfold bind at 1. cbn [ask]. rewrite Hparse.
  destruct Hcase as [Hhelp|Hnone].
  - replace (0 <? count result "help") with true by (symmetry; now apply Nat.ltb_lt).
    eexists. split; reflexivity.
  - rewrite !Hnone. eexists. split; reflexivity.
Qed.

(** C4 on the code: a command line the parser rejects.  [parseArgs] reports
    the error and yields [ERROR]; [main] then returns 0, the same exit
    status as after help. *)
Theorem main_exit_status_after_parse_failure :
  main 1 ["panorama"; "--bogus"]%string (initial sample_env [] 0) =
  Done 0%Z {| env := sample_env; store := []; keys := []; pending := 0;
              out := [Cout RED; Cout ("Error parsing args: no such option" ++ endl)%string] |}.
Proof. reflexivity. Qed.

(** C5, counterexample: with both [--camera] and [--select] given the camera
    adapter runs, and nothing but its own calls and the later "Not enough
    images provided" reaches the user. *)
Lemma conflicting_flags_still_acquire :
  conflicting (flags ["camera"; "select"]%string) /\
  ~ conflict_rejected 5 ["panorama"; "--camera"; "--select"]%string
      (initial (desk_env ["camera"; "select"]%string) [27%Z] 0) /\
  out (world_of (main 5 ["panorama"; "--camera"; "--select"]%string
                      (initial (desk_env ["camera"; "select"]%string) [27%Z] 0)))
  = [ OpenCamera 0; Read 0 (Some (frame_no 0));
      Imshow "Camera feed" (Some (annotated (frame_no 0))); WaitKey 1;
      Cout CYAN; Cout ("Finished taking images..." ++ endl)%string;
      Release; DestroyAllWindows ]
    ++ error_report "Not enough images provided".
Proof.
  split; [|split].
  - unfold conflicting. vm_compute. lia.
  - unfold conflict_rejected. intros H.
    assert (Hin : In (OpenCamera 0)
              (out (world_of (main 5 ["panorama"; "--camera"; "--select"]%string
                      (initial (desk_env ["camera"; "select"]%string) [27%Z] 0)))))
      by (left; reflexivity).
    exact (proj1 (List.Forall_forall _ _) H _ Hin I).
  - reflexivity.
Qed.

(** C5, amended. When the command line parses and help was not asked for,
    [parseArgs] runs exactly one adapter, the one of the first option given
    in the order demo, camera, select, images, video, whatever other source
    options accompany it, and yields [OK] with what that adapter acquired;
    it makes no call of its own. *)
Theorem parseArgs_first_flag_wins
    (fuel : nat) (argv : list string) (images : list Image) (w : World)
    (result : ParseResult) :
  cxxopts_parse (env w) argv = Parsed result ->
  count result "help" = 0 ->
  let then_OK (adapter : M (list Image)) : Outcome (Status * list Image) :=
    (let* images := adapter in ret (OK, images)) w in
  let given name := 0 < count result name in
  let absent name := count result name = 0 in
  (given "demo"%string ->
     parseArgs fuel argv images w = then_OK (runDemo images (as_size_t result "demo"))) /\
  (absent "demo"%string -> given "camera"%string ->
     parseArgs fuel argv images w = then_OK (cameraCapture fuel images)) /\
  (absent "demo"%string -> absent "camera"%string -> given "select"%string ->
     parseArgs fuel argv images w = then_OK (fileSelectGUI images)) /\
  (absent "demo"%string -> absent "camera"%string -> absent "select"%string ->
   given "images"%string ->
     parseArgs fuel argv images w
     = then_OK (uploadImages images (as_Filenames result "images"))) /\
  (absent "demo"%string -> absent "camera"%string -> absent "select"%string ->
   absent "images"%string -> given "video"%string ->
     parseArgs fuel argv images w
     = then_OK (videoCapture fuel images (as_Filename result "video") double_0_1)).
Proof.
  intros Hparse Hhelp then_OK given absent. subst then_OK given absent. cbv beta.
  assert (Hyes : forall name, 0 < count result name -> (0 <? count result name) = true)
    by (intros name H; now apply Nat.ltb_lt).
  assert (Hrun : forall k : (list string -> Parse) -> M (Status * list Image),
            bind (ask cxxopts_parse) k w = k (cxxopts_parse (env w)) w) by reflexivity.
  assert (Hno : forall name, count result name = 0 -> (0 <? count result name) = false)
    by (intros name H; now rewrite H).
  unfold parseArgs. rewrite Hrun, Hparse, (Hno _ Hhelp).
  repeat split; intros;
    repeat match goal with
           | H : count result _ = 0 |- _ => rewrite (Hno _ H); clear H
           | H : 0 < count result _ |- _ => rewrite (Hyes _ H); clear H
           end;
    reflexivity.
Qed.

Lemma parseArgs_first_flag_wins_witness :
  parseArgs 5 ["panorama"; "--camera"; "--select"]%string []
            (initial (desk_env ["camera"; "select"]%string) [27%Z] 0)
  = (let* images := cameraCapture 5 [] in ret (OK, images))
      (initial (desk_env ["camera"; "select"]%string) [27%Z] 0).
Proof.
  apply (parseArgs_first_flag_wins 5 ["panorama"; "--camera"; "--select"]%string []
           (initial (desk_env ["camera"; "select"]%string) [27%Z] 0)
           (flags ["camera"; "select"]%string)).
  - reflexivity.
  - reflexivity.
  - reflexivity.
  - simpl. lia.
Defined.

Lemma save_workflow_encodes_once_witness :
  exists new w',
    promptSaveImage 3 Mat_empty (initial saving_env [] 2) = Done tt w' /\
    out w' = [] ++ new /\
    encodes new = [("pano.png"%string, None)] /\
    notifications new
      = [("Panorama Stitcher", "Panorama saved at: pano.png", icon_info)%string].
Proof.
  destruct (save_workflow_encodes_once 3 Mat_empty (initial saving_env [] 2)
              ltac:(simpl; lia))
    as [(new & w' & Hrun & Hout & Hyes & _) _].
  destruct (Hyes eq_refl ltac:(discriminate)) as (He & Hn & _).
  exists new, w'. split; [exact Hrun|]. split; [exact Hout|]. split; [exact He|exact Hn].
Defined.

(** * Further properties *)

(** ** Devices that deliver nothing *)

(** A feed with nothing to deliver at its position ends either loop at the
    first turn. *)
Lemma frame_at_closed p : frame_at {| source := None; position := p |} = None.
Proof. reflexivity. Qed.

Lemma frame_at_empty p : frame_at {| source := Some []; position := p |} = None.
Proof. unfold frame_at; cbn [source position]. now destruct (0 <=? p)%Z. Qed.

(** [videoCapture] refuses a frequency outside the open interval (0, 1)
    at its assertion, before the video is opened: the process is killed with
    nothing called.  The bounds 0 and 1 themselves are refused, and so is
    NaN. *)
Theorem videoCapture_refuses_frequency
    (fuel : nat) (images : list Image) (video : Filename) (frequency : spec_float)
    (w : World) :
  frequency_ok frequency = false ->
  videoCapture fuel images video frequency w = Aborted w /\
  frequency_ok (double_of_Z 0) = false /\
  frequency_ok (double_of_Z 1) = false /\
  frequency_ok S754_nan = false.
Proof.
  intros Hbad. split; [|repeat split].
  unfold videoCapture. unfold frequency_ok in Hbad. rewrite Hbad. reflexivity.
Qed.

Lemma videoCapture_refuses_frequency_witness :
  videoCapture 10 [] "clip.mp4" (double_of_Z 1) (initial (cinema_env 100) [] 0)
  = Aborted (initial (cinema_env 100) [] 0).
Proof.
  apply (videoCapture_refuses_frequency 10 [] "clip.mp4"%string (double_of_Z 1)
           (initial (cinema_env 100) [] 0)).
  vm_compute. reflexivity.
Defined.

(** A video that cannot be opened, or that holds no frame, costs one failed
    read: [videoCapture] returns [images] as they were, after releasing the
    feed, whatever the stride comes to (it is 0 here) and with a budget of a
    single turn. *)
Theorem videoCapture_without_frames
    (fuel : nat) (images : list Image) (video : Filename) (frequency : spec_float)
    (w : World) :
  frequency_ok frequency = true ->
  videos (env w) video = None \/ videos (env w) video = Some [] ->
  videoCapture (S fuel) images video frequency w =
  Done images {| env := env w; store := store w; keys := keys w; pending := pending w;
                 out := out w ++ [OpenVideo video; Read 0 None; Release] |}.
Proof.
  intros Hok Hv. unfold videoCapture, open_video. unfold frequency_ok in Hok.
  rewrite Hok. unfold assert.
  unfold bind at 1. unfold bind at 1. unfold bind at 1. cbn [emit].
  unfold bind at 1. cbn [ask ret env store keys pending out].
  rewrite forever_S.
  assert (Hend : frame_at {| source := videos (env w) video; position := 0 |} = None)
    by (destruct Hv as [-> | ->]; [apply frame_at_closed|apply frame_at_empty]).
  erewrite (bind_Done (bind _ _));
    [|erewrite bind_Done; [|now apply videoCapture_body_end]; reflexivity].
  unfold release, bind, emit, ret. cbn [env store keys pending out position].
  now rewrite <- !app_assoc.
Qed.

Lemma videoCapture_without_frames_witness :
  videoCapture 1 [] "gone.mp4" double_0_1 (initial sample_env [] 0) =
  Done [] {| env := sample_env; store := []; keys := []; pending := 0;
             out := [] ++ [OpenVideo "gone.mp4"; Read 0 None; Release] |}.
Proof.
  apply (videoCapture_without_frames 0 [] "gone.mp4"%string double_0_1
           (initial sample_env [] 0)).
  - vm_compute. reflexivity.
  - left. reflexivity.
Defined.

Lemma cameraCapture_dry fuel images w :
  webcam (env w) = None \/ webcam (env w) = Some [] ->
  cameraCapture (S fuel) images w =
  Done images {| env := env w; store := store w; keys := keys w; pending := pending w;
                 out := out w ++ [OpenCamera 0; Read 0 None; Release; DestroyAllWindows] |}.
Proof.
  intros Hcam. unfold cameraCapture, open_device.
  unfold bind at 1. unfold bind at 1. cbn [emit]. unfold bind at 1.
  cbn [ask ret env store keys pending out]. change (0 =? 0)%Z with true. cbv iota.
  rewrite forever_S.
  assert (Hend : frame_at {| source := webcam (env w); position := 0 |} = None)
    by (destruct Hcam as [-> | ->]; [apply frame_at_closed|apply frame_at_empty]).
  erewrite (bind_Done (bind _ _));
    [|erewrite bind_Done; [|now apply cameraCapture_body_end]; reflexivity].
  unfold release, destroyAllWindows, bind, emit, ret.
  cbn [env store keys pending out position].
  now rewrite <- !app_assoc.
Qed.

(** A camera that does not open, or delivers nothing, costs one failed read:
    [cameraCapture] returns [images] as they were, polls no key, shows no
    window, and still releases the feed and closes all windows. *)
Theorem cameraCapture_without_camera (fuel : nat) (images : list Image) (w : World) :
  webcam (env w) = None \/ webcam (env w) = Some [] ->
  cameraCapture (S fuel) images w =
  Done images {| env := env w; store := store w; keys := keys w; pending := pending w;
                 out := out w ++ [OpenCamera 0; Read 0 None; Release; DestroyAllWindows] |}.
Proof. exact (cameraCapture_dry fuel images w). Qed.

Lemma cameraCapture_without_camera_witness :
  cameraCapture 1 [] (initial sample_env [13%Z] 0) =
  Done [] {| env := sample_env; store := []; keys := [13%Z]; pending := 0;
             out := [] ++ [OpenCamera 0; Read 0 None; Release; DestroyAllWindows] |}.
Proof.
  apply (cameraCapture_without_camera 0 [] (initial sample_env [13%Z] 0)).
  left. reflexivity.
Defined.

(** ** Devices are given back *)

(** Whenever [cameraCapture] returns, the last two calls it made are the
    release of the feed and the closing of all windows; whenever
    [videoCapture] returns, its last call is the release of the feed.  This
    holds on every way out of the loops: end of stream, ESCAPE, or a device
    that never opened. *)
Theorem capture_gives_devices_back :
  (forall fuel images w images' w',
     cameraCapture fuel images w = Done images' w' ->
     exists before, out w' = before ++ [Release; DestroyAllWindows]) /\
  (forall fuel images video frequency w images' w',
     videoCapture fuel images video frequency w = Done images' w' ->
     exists before, out w' = before ++ [Release]).
Proof.
  split.
  - intros fuel images w images' w'. unfold cameraCapture.
    unfold bind at 1.
    destruct (open_device 0 w) as [feed w0|w0|w0]; try discriminate.
    unfold bind at 1.
    destruct (forever fuel cameraCapture_body (feed, images) w0)
      as [[feed1 images1] w1|w1|w1]; try discriminate.
    unfold release, destroyAllWindows, bind, emit, ret.
    intros [= _ <-]. cbn [out]. exists (out w1). now rewrite <- app_assoc.
  - intros fuel images video frequency w images' w'. unfold videoCapture.
    unfold bind at 1.
    destruct (assert (SFltb (double_of_Z 0) frequency && SFltb frequency (double_of_Z 1)) w)
      as [[] w0|w0|w0]; try discriminate.
    unfold bind at 1.
    destruct (open_video video w0) as [feed w1|w1|w1]; try discriminate.
    unfold bind at 1.
    match goal with |- context [forever fuel ?b ?s w1] =>
      destruct (forever fuel b s w1) as [[[feed2 images2] fp] w2|w2|w2]; try discriminate
    end.
    unfold release, bind, emit, ret. intros [= _ <-]. cbn [out]. now exists (out w2).
Qed.

Lemma capture_gives_devices_back_witness :
  exists before,
    out (world_of (cameraCapture 5 [] (initial studio_env studio_keys 0)))
    = before ++ [Release; DestroyAllWindows].
Proof.
  destruct capture_gives_devices_back as [Hcam _].
  destruct (cameraCapture 5 [] (initial studio_env studio_keys 0)) as [images' w'|w'|w'] eqn:Hrun;
    [|vm_compute in Hrun; discriminate|vm_compute in Hrun; discriminate].
  exact (Hcam 5 [] (initial studio_env studio_keys 0) images' w' Hrun).
Defined.

(** ** Earlier images are left alone *)

(** [cameraCapture] draws its instructions only into buffers of frames it
    has read itself: the images passed in stay at the head of the result,
    and whatever a matrix showed before the session it shows after it. *)
Theorem cameraCapture_spares_earlier_images
    (fuel : nat) (images : list Image) (w : World) :
  length (default [] (webcam (env w))) < fuel ->
  exists new w',
    cameraCapture fuel images w = Done (images ++ new) w' /\
    forall m px, deref (store w) m = Some px -> deref (store w') m = Some px.
Proof.
  intros Hfuel.
  destruct (webcam (env w)) as [all|] eqn:Hcam; cbn [default from_option id] in Hfuel.
  - unfold cameraCapture, open_device.
    unfold bind at 1. unfold bind at 1. cbn [emit]. unfold bind at 1.
    cbn [ask ret env store keys pending out]. change (0 =? 0)%Z with true. cbv iota.
    rewrite Hcam.
    match goal with |- context [bind _ _ ?w1] =>
      destruct (cameraCapture_loop all all 0 images w1 fuel eq_refl Hfuel)
        as (feed' & new & ext & w' & Hrun & Hst & _)
    end.
    cbn [store] in Hst. change (Z.of_nat 0) with 0%Z in Hrun.
    rewrite (bind_Done _ _ Hrun). cbv beta iota.
    exists new. eexists. split; [reflexivity|].
    intros m px Hm. cbn [store]. rewrite Hst. now apply deref_grow.
  - destruct fuel as [|fuel]; [lia|].
    rewrite (cameraCapture_dry fuel images w (or_introl Hcam)).
    exists []. eexists. rewrite app_nil_r. split; [reflexivity|].
    intros m px Hm. exact Hm.
Qed.

Lemma cameraCapture_spares_earlier_images_witness :
  exists new w',
    cameraCapture 5 [] (initial studio_env studio_keys 0) = Done ([] ++ new) w' /\
    forall m px, deref [] m = Some px -> deref (store w') m = Some px.
Proof.
  apply (cameraCapture_spares_earlier_images 5 [] (initial studio_env studio_keys 0)).
  simpl. lia.
Defined.

(** ** Help, no option, and a failed stitch *)

(** [-h] wins over every other option: whatever else was given, [main]
    prints the help text and returns 0; no device, dialog or file is
    touched. *)
Theorem main_help_wins
    (fuel : nat) (argv : list string) (w : World) (result : ParseResult) :
  cxxopts_parse (env w) argv = Parsed result ->
  0 < count result "help" ->
  main fuel argv w =
  Done 0%Z {| env := env w; store := store w; keys := keys w; pending := pending w;
              out := out w ++ [Cout CYAN; Cout (help_text (env w) ++ endl)%string] |}.
Proof.
  intros Hparse Hhelp. unfold main, parseArgs.
  unfold bind at 1. unfold bind at 1. cbn [ask]. rewrite Hparse.
  replace (0 <? count result "help") with true by (symmetry; now apply Nat.ltb_lt).
  unfold bind, emit, ask, ret. cbn [env store keys pending out Status_eqb].
  now rewrite <- app_assoc.
Qed.

Lemma main_help_wins_witness :
  main 5 ["panorama"; "-h"; "-c"]%string
       (initial (desk_env ["help"; "camera"]%string) [13%Z] 0) =
  Done 0%Z {| env := desk_env ["help"; "camera"]%string; store := []; keys := [13%Z];
              pending := 0;
              out := [] ++ [Cout CYAN; Cout ("usage" ++ endl)%string] |}.
Proof.
  apply (main_help_wins 5 ["panorama"; "-h"; "-c"]%string
           (initial (desk_env ["help"; "camera"]%string) [13%Z] 0)
           (flags ["help"; "camera"]%string)).
  - reflexivity.
  - simpl. lia.
Defined.

(** Without any of the six options [main] prints where to find help and
    returns 0, again touching nothing. *)
Theorem main_without_options
    (fuel : nat) (argv : list string) (w : World) (result : ParseResult) :
  cxxopts_parse (env w) argv = Parsed result ->
  Forall (fun name => count result name = 0)
         ["help"; "demo"; "camera"; "select"; "images"; "video"]%string ->
  main fuel argv w =
  Done 0%Z {| env := env w; store := store w; keys := keys w; pending := pending w;
              out := out w ++ [Cout YELLOW;
                               Cout ("Use -h or --help for more information" ++ endl)%string] |}.
Proof.
  intros Hparse Hnone. unfold main, parseArgs.
  unfold bind at 1. unfold bind at 1. cbn [ask]. rewrite Hparse.
  repeat match goal with
         | H : Forall _ (_ :: _) |- _ =>
             apply Forall_cons_1 in H; destruct H as [-> H]
         end.
  unfold bind, emit, ret. cbn [Nat.ltb Nat.leb env store keys pending out Status_eqb].
  now rewrite <- app_assoc.
Qed.

Lemma main_without_options_witness :
  main 5 ["panorama"]%string (initial (desk_env []) [] 0) =
  Done 0%Z {| env := desk_env []; store := []; keys := []; pending := 0;
              out := [] ++ [Cout YELLOW;
                            Cout ("Use -h or --help for more information" ++ endl)%string] |}.
Proof.
  apply (main_without_options 5 ["panorama"]%string (initial (desk_env []) [] 0) (flags [])).
  - reflexivity.
  - repeat constructor.
Defined.

(** When the stitcher reports anything but OK, [createPanorama] reports
    "Panorama could not be created." and stops there: no preview, no save
    question, no file, and no retry (a single [Stitch] call). *)
Theorem createPanorama_failure (fuel : nat) (images : list Image) (w : World) :
  fst (engine (env w) (map (deref (store w)) images)) <> Stitcher_OK ->
  createPanorama fuel images w =
  Done tt {| env := env w; store := store w; keys := keys w; pending := pending w;
             out := out w
                    ++ [Cout GREEN; Cout ("Creating panorama..." ++ endl)%string;
                        Stitch PANORAMA (map (deref (store w)) images)]
                    ++ error_report "Panorama could not be created." |}.
Proof.
  intros Hfail. unfold createPanorama, stitch.
  unfold bind at 1. cbn [emit]. unfold bind at 1. cbn [emit].
  unfold bind at 1. unfold bind at 1. cbn [snapshot env store keys pending out].
  unfold bind at 1. cbn [emit]. unfold bind at 1. cbn [ask env store keys pending out].
  destruct (engine (env w) (map (deref (store w)) images)) as [status r].
  cbn [fst] in Hfail.
  destruct status; [contradiction| | |];
    cbn [ret]; rewrite showError_run; cbn [env store keys pending out];
    now rewrite <- !app_assoc.
Qed.

Lemma createPanorama_failure_witness :
  createPanorama 0 [Mat_empty; Mat_empty] (initial sample_env [] 0) =
  Done tt {| env := sample_env; store := []; keys := []; pending := 0;
             out := []
                    ++ [Cout GREEN; Cout ("Creating panorama..." ++ endl)%string;
                        Stitch PANORAMA [None; None]]
                    ++ error_report "Panorama could not be created." |}.
Proof.
  apply (createPanorama_failure 0 [Mat_empty; Mat_empty] (initial sample_env [] 0)).
  discriminate.
Defined.

(** ** The save question *)

Lemma polling_unanswered : forall fuel w,
  fuel <= pending w ->
  forever fuel poll tt w =
  Spinning {| env := env w; store := store w; keys := keys w;
              pending := pending w - fuel;
              out := out w ++ repeat (Ready 1000) fuel |}.
Proof.
  induction fuel as [|fuel IH]; intros w Hle.
  - cbn [forever repeat]. rewrite app_nil_r, Nat.sub_0_r. now destruct w.
  - rewrite forever_S. unfold poll at 1, ready, bind, emit, ret.
    cbn [env store keys pending out].
    destruct (pending w) as [|n] eqn:Hp; [lia|].
    rewrite IH by (cbn [pending]; lia). cbn [env store keys pending out repeat].
    now rewrite <- app_assoc.
Qed.

(** For as long as the save question is unanswered [promptSaveImage] does
    nothing but poll it, 1000 ms at a time: it never gives up on its own,
    and until the answer is there no save dialog is opened and no file is
    written. *)
Theorem promptSaveImage_only_polls (fuel : nat) (image : Image) (w : World) :
  fuel <= pending w ->
  promptSaveImage fuel image w =
  Spinning {| env := env w; store := store w; keys := keys w;
              pending := pending w - fuel;
              out := out w ++ save_question fuel |}.
Proof.
  intros Hle. unfold promptSaveImage, message.
  unfold bind at 1. cbn [emit].
  change (fun _ : unit => let* r := ready 1000 in ret (if r : bool then Break else Continue, tt))
    with poll.
  erewrite bind_Spinning; [|apply polling_unanswered; cbn [pending]; exact Hle].
  cbn [env store keys pending out]. unfold save_question.
  now rewrite <- app_assoc.
Qed.

Lemma promptSaveImage_only_polls_witness :
  promptSaveImage 3 Mat_empty (initial saving_env [] 5) =
  Spinning {| env := saving_env; store := []; keys := []; pending := 5 - 3;
              out := [] ++ save_question 3 |}.
Proof.
  apply (promptSaveImage_only_polls 3 Mat_empty (initial saving_env [] 5)).
  simpl. lia.
Defined.

(** ** Loading in batches *)

Lemma bind_assoc {A B C} (m : M A) (f : A -> M B) (k : B -> M C) w :
  bind (bind m f) k w = bind m (fun a => bind (f a) k) w.
Proof. unfold bind. now destruct (m w). Qed.

(** Loading a list of files is loading its first part and then the rest:
    [uploadImages] keeps no state of its own between files. *)
Theorem uploadImages_in_batches (files1 files2 : list Filename) :
  forall (images : list Image) (w : World),
    uploadImages images (files1 ++ files2) w =
    (let* images' := uploadImages images files1 in uploadImages images' files2) w.
Proof.
  induction files1 as [|file files1 IH]; intros images w.
  - reflexivity.
  - cbn [app uploadImages]. rewrite bind_assoc.
    rewrite !(bind_Done _ _ (imread_run file w)). apply IH.
Qed.

(** ** Demo file names can be read back *)

Lemma string_app_assoc (a b c : string) : ((a ++ b) ++ c = a ++ (b ++ c))%string.
Proof. induction a as [|ch a IH]; [reflexivity|]. cbn. now rewrite IH. Qed.

Lemma string_length_app (a b : string) :
  String.length (a ++ b) = String.length a + String.length b.
Proof. induction a as [|ch a IH]; [reflexivity|]. cbn. now rewrite IH. Qed.

Lemma substring_past (a s : string) (m : nat) :
  substring (String.length a) m (a ++ s) = substring 0 m s.
Proof. induction a as [|ch a IH]; [reflexivity|]. exact IH. Qed.

Lemma substring_head (b c : string) : substring 0 (String.length b) (b ++ c) = b.
Proof.
  induction b as [|ch b IH]; cbn.
  - now destruct c.
  - now rewrite IH.
Qed.

(** The index part of a file name as [runDemo] writes it. *)
Lemma runDemo_index_field i :
  ((if (i <? 10)%nat then "0" else "") ++ to_string i)%string = index_field i.
Proof.
  unfold index_field.
  destruct (Nat.ltb_spec i 10) as [Hlt|Hge].
  - replace (i <=? 9) with true by (symmetry; apply Nat.leb_le; lia).
    now rewrite to_string_digit.
  - replace (i <=? 9) with false by (symmetry; apply Nat.leb_gt; lia).
    reflexivity.
Qed.

Lemma to_uint_nonnil i : Nat.to_uint i <> Decimal.Nil.
Proof.
  rewrite <- (DecimalNat.Unsigned.of_to i) at 1. rewrite DecimalNat.Unsigned.to_of.
  apply DecimalFacts.unorm_nonnil.
Qed.

Lemma index_field_read i :
  option_map Nat.of_uint (NilZero.uint_of_string (index_field i)) = Some i.
Proof.
  unfold index_field. destruct (Nat.leb_spec i 9) as [Hle|Hgt].
  - do 10 (destruct i as [|i]; [reflexivity|]). lia.
  - unfold to_string. rewrite NilZero.usu by apply to_uint_nonnil.
    cbn [option_map]. now rewrite DecimalNat.Unsigned.of_to.
Qed.

Lemma demo_file_parts name n i :
  demo_file (name, n) i = (demo_prefix name ++ index_field i ++ ".png")%string.
Proof.
  unfold demo_file, demo_prefix; cbn [fst].
  rewrite <- runDemo_index_field. now rewrite !string_app_assoc.
Qed.

(** The frame index can be read back off every file name [runDemo]
    generates, whatever the dataset name and size; so the names generated
    for one dataset are pairwise different: no file is loaded twice. *)
Theorem demo_file_names_read_back :
  (forall name n i, frame_index name (demo_file (name, n) i) = Some i) /\
  (forall entry, NoDup (demo_files entry)).
Proof.
  assert (Hback : forall name n i, frame_index name (demo_file (name, n) i) = Some i).
  { intros name n i. unfold frame_index. rewrite demo_file_parts.
    rewrite !string_length_app.
    replace (String.length (demo_prefix name)
             + (String.length (index_field i) + String.length ".png")
             - String.length (demo_prefix name) - 4)
      with (String.length (index_field i)) by (cbn [String.length]; lia).
    rewrite substring_past, substring_head. apply index_field_read. }
  split; [exact Hback|].
  intros [name n]. rewrite demo_files_map.
  apply NoDup_fmap_2_strong; [|apply NoDup_seq].
  intros i j _ _ Heq.
  apply (f_equal (frame_index name)) in Heq. rewrite !Hback in Heq. congruence.
Qed.

(** ** Invariants of a run *)

Section Invariant.

Variable I : World -> Prop.
Variable Q : Event -> Prop.

(** [I] looks at the environment and the trace only, and survives every
    call in [Q]. *)
Hypothesis I_frame : forall w st ks n,
  I w -> I {| env := env w; store := st; keys := ks; pending := n; out := out w |}.
Hypothesis I_emit : forall w e,
  Q e -> I w -> I {| env := env w; store := store w; keys := keys w;
                     pending := pending w; out := out w ++ [e] |}.

Lemma keeps_ret {A} (a : A) : keeps I (ret a).
Proof. intros w H. exact H. Qed.

Lemma keeps_bind {A B} (m : M A) (k : A -> M B) :
  keeps I m -> (forall a, keeps I (k a)) -> keeps I (bind m k).
Proof.
  intros Hm Hk w H. specialize (Hm w H). unfold bind.
  destruct (m w) as [a w'|w'|w']; cbn [world_of] in *; [now apply Hk|exact Hm|exact Hm].
Qed.

Lemma keeps_emit e : Q e -> keeps I (emit e).
Proof. intros He w H. cbn [emit world_of]. now apply I_emit. Qed.

Lemma keeps_assert b : keeps I (assert b).
Proof. intros w H. unfold assert. now destruct b. Qed.

Lemma keeps_ask {A} (f : Env -> A) : keeps I (ask f).
Proof. intros w H. exact H. Qed.

Lemma keeps_snapshot : keeps I snapshot.
Proof. intros w H. exact H. Qed.

Lemma keeps_peek m : keeps I (peek m).
Proof. intros w H. exact H. Qed.

Lemma keeps_alloc p : keeps I (alloc p).
Proof. intros w H. cbn [alloc world_of]. now apply I_frame. Qed.

Lemma keeps_putText img txt at_ font scale col thick :
  keeps I (putText img txt at_ font scale col thick).
Proof.
  intros w H. unfold putText. destruct (data img); cbn [world_of]; [|exact H].
  now apply I_frame.
Qed.

Lemma keeps_forever {St} (body : St -> M (Ctl * St)) fuel :
  (forall s, keeps I (body s)) -> forall s, keeps I (forever fuel body s).
Proof.
  intros Hbody. induction fuel as [|fuel IH]; intros s.
  - intros w H. exact H.
  - rewrite forever_S. apply keeps_bind; [apply Hbody|].
    intros [[|] s']; [apply IH|apply keeps_ret].
Qed.

(** The acquisition calls are in [Q]. *)
Hypothesis Q_acquisition : forall e, acquisition_call e -> Q e.

Lemma keeps_waitKey delay : keeps I (waitKey delay).
Proof.
  apply keeps_bind; [apply keeps_emit, Q_acquisition; exact Logic.I|].
  intros _ w H. destruct (keys w); cbn [world_of]; [exact H|now apply I_frame].
Qed.

Ltac steady :=
  repeat first
    [ apply keeps_ret | apply keeps_ask | apply keeps_alloc | apply keeps_snapshot
    | apply keeps_peek | apply keeps_assert | apply keeps_putText | apply keeps_waitKey
    | apply keeps_emit, Q_acquisition; exact Logic.I
    | apply keeps_bind
    | match goal with
      | |- keeps _ (match ?x with _ => _ end) => destruct x
      | |- forall _, _ => intro
      end ].

Lemma keeps_read feed : keeps I (read feed).
Proof. unfold read. steady. Qed.

Lemma keeps_imread file : keeps I (imread file).
Proof. unfold imread. steady. Qed.

Lemma keeps_imshow winname mat : keeps I (imshow winname mat).
Proof. unfold imshow. steady. Qed.

Lemma keeps_uploadImages files : forall images, keeps I (uploadImages images files).
Proof.
  induction files as [|file files IH]; intros images; simpl.
  - apply keeps_ret.
  - apply keeps_bind; [apply keeps_imread|]. intros image. apply IH.
Qed.

Lemma keeps_runDemo images demo : keeps I (runDemo images demo).
Proof.
  unfold runDemo. apply keeps_bind; [apply keeps_assert|].
  intros _. apply keeps_uploadImages.
Qed.

Lemma keeps_cameraCapture fuel images : keeps I (cameraCapture fuel images).
Proof.
  unfold cameraCapture, open_device, release, destroyAllWindows.
  apply keeps_bind; [steady|]. intros feed.
  apply keeps_bind; [|steady].
  apply keeps_forever. intros [feed' images'].
  unfold cameraCapture_body.
  apply keeps_bind; [apply keeps_read|]. intros [feed'' frame].
  destruct (data frame); [|apply keeps_ret].
  apply keeps_bind; [apply keeps_putText|]. intros _.
  apply keeps_bind; [apply keeps_putText|]. intros _.
  apply keeps_bind; [apply keeps_imshow|]. steady.
Qed.

Lemma keeps_fileSelectGUI images : keeps I (fileSelectGUI images).
Proof.
  unfold fileSelectGUI, open_file.
  apply keeps_bind; [steady|]. intros files. apply keeps_uploadImages.
Qed.

Lemma keeps_videoCapture fuel images video frequency :
  keeps I (videoCapture fuel images video frequency).
Proof.
  unfold videoCapture, open_video, release.
  apply keeps_bind; [apply keeps_assert|]. intros _.
  apply keeps_bind; [steady|]. intros feed.
  apply keeps_bind; [|steady].
  apply keeps_forever. intros [[feed' images'] fp].
  unfold videoCapture_body, set_pos.
  apply keeps_bind; [apply keeps_read|]. steady.
Qed.

Lemma keeps_parseArgs fuel argv images : keeps I (parseArgs fuel argv images).
Proof.
  unfold parseArgs. apply keeps_bind; [apply keeps_ask|]. intros parse.
  destruct (parse argv) as [result|what]; [|steady].
  repeat match goal with
         | |- keeps _ (if ?b then _ else _) => destruct b
         end;
    try (apply keeps_bind;
         [ first [ apply keeps_runDemo | apply keeps_cameraCapture
                 | apply keeps_fileSelectGUI | apply keeps_uploadImages
                 | apply keeps_videoCapture ]
         | intros; apply keeps_ret ]);
    steady.
Qed.

(** So is every other call, short of an encode. *)
Hypothesis Q_other : forall e, not_Imwrite e -> Q e.

Lemma keeps_notify title msg i : keeps I (notify title msg i).
Proof. apply keeps_emit, Q_other. exact Logic.I. Qed.

Lemma keeps_showNotification msg : keeps I (showNotification msg).
Proof.
  unfold showNotification.
  apply keeps_bind; [steady|]. intros _.
  apply keeps_bind; [steady|]. intros _. apply keeps_notify.
Qed.

Lemma keeps_showError msg : keeps I (showError msg).
Proof.
  unfold showError.
  apply keeps_bind; [steady|]. intros _.
  apply keeps_bind; [steady|]. intros _. apply keeps_notify.
Qed.

Lemma keeps_ready timeout : keeps I (ready timeout).
Proof.
  apply keeps_bind; [apply keeps_emit, Q_other; exact Logic.I|].
  intros _ w H. destruct (pending w); cbn [world_of]; [exact H|now apply I_frame].
Qed.

Lemma keeps_stitch mode images : keeps I (stitch mode images).
Proof.
  unfold stitch. apply keeps_bind; [apply keeps_snapshot|]. intros st.
  apply keeps_bind; [apply keeps_emit, Q_other; exact Logic.I|]. steady.
Qed.

(** Up to the answer, [promptSaveImage] only asks and polls. *)
Lemma keeps_save_question fuel :
  keeps I (message "Save image?" "Would you like to save the panorama image?"
                   choice_yes_no icon_question >>
           forever fuel poll tt).
Proof.
  apply keeps_bind; [apply keeps_emit, Q_other; exact Logic.I|]. intros _.
  apply keeps_forever. intros []. unfold poll.
  apply keeps_bind; [apply keeps_ready|]. intros r. apply keeps_ret.
Qed.

(** If encodes are in [Q] as well, [promptSaveImage] keeps [I]. *)
Lemma keeps_promptSaveImage_any :
  (forall file px, Q (Imwrite file px)) ->
  forall fuel image, keeps I (promptSaveImage fuel image).
Proof.
  intros Hw fuel image. unfold promptSaveImage.
  apply keeps_bind; [apply keeps_emit, Q_other; exact Logic.I|]. intros _.
  apply keeps_bind.
  { apply keeps_forever. intros [].
    apply keeps_bind; [apply keeps_ready|]. intros r. apply keeps_ret. }
  intros _. unfold result_of_message, save_file, imwrite.
  apply keeps_bind; [apply keeps_ask|]. intros button.
  destruct button; try apply keeps_ret.
  apply keeps_bind.
  { apply keeps_bind; [apply keeps_emit, Q_other; exact Logic.I|].
    intros _. apply keeps_ask. }
  intros dir. destruct (String.eqb dir ""); [apply keeps_ret|].
  apply keeps_bind; [|intros _; apply keeps_showNotification].
  apply keeps_bind; [apply keeps_peek|]. intros px. apply keeps_emit, Hw.
Qed.

(** [createPanorama] and [main] keep what [promptSaveImage] keeps. *)
Hypothesis keeps_promptSaveImage : forall fuel image, keeps I (promptSaveImage fuel image).

Lemma keeps_after_stitch fuel status panorama :
  keeps I (match status with
           | Stitcher_OK =>
               showNotification "Panorama successfully created!" >>
               imshow "Panorama" panorama >>
               waitKey 0 >>
               promptSaveImage fuel panorama >>
               destroyAllWindows
           | _ => showError "Panorama could not be created."
           end).
Proof.
  destruct status; try apply keeps_showError.
  apply keeps_bind; [apply keeps_showNotification|]. intros _.
  apply keeps_bind; [apply keeps_imshow|]. intros _.
  apply keeps_bind; [apply keeps_waitKey|]. intros _.
  apply keeps_bind; [apply keeps_promptSaveImage|]. intros _.
  unfold destroyAllWindows. steady.
Qed.

Lemma keeps_createPanorama fuel images : keeps I (createPanorama fuel images).
Proof.
  unfold createPanorama.
  apply keeps_bind; [steady|]. intros _.
  apply keeps_bind; [steady|]. intros _.
  apply keeps_bind; [apply keeps_stitch|]. intros [status panorama].
  apply keeps_after_stitch.
Qed.

Lemma keeps_main fuel argv : keeps I (main fuel argv).
Proof.
  unfold main. apply keeps_bind; [apply keeps_parseArgs|]. intros [status images].
  apply keeps_bind; [|intros _; apply keeps_ret].
  destruct (Status_eqb status OK); [|apply keeps_ret].
  destruct (1 <? length images); [apply keeps_createPanorama|apply keeps_showError].
Qed.

End Invariant.

(** ** What acquisition never does *)

(** Started from scratch, [parseArgs] makes acquisition calls only: console
    output, capture, decode, preview and file-browser calls.  It never calls
    the stitcher, never raises a notification, never asks the save question
    and never writes a file, whichever option is given and however it
    ends. *)
Theorem parseArgs_only_acquires
    (fuel : nat) (argv : list string) (e : Env) (ks : list Z) (n : nat) :
  Forall acquisition_call (out (world_of (parseArgs fuel argv [] (initial e ks n)))).
Proof.
  apply (keeps_parseArgs (fun w => Forall acquisition_call (out w)) acquisition_call).
  - intros w st ks' n' H. exact H.
  - intros w ev Hev H. cbn [out]. apply Forall_app. split; [exact H|now constructor].
  - intros ev Hev. exact Hev.
  - constructor.
Qed.

(** ** Files are written by consent only *)

Lemma not_Imwrite_consented e ev : not_Imwrite ev -> consented e ev.
Proof. now destruct ev. Qed.

Lemma acquisition_call_consented e ev : acquisition_call ev -> consented e ev.
Proof. now destruct ev. Qed.

Lemma consent_promptSaveImage e fuel image :
  keeps (fun w => env w = e /\ Forall (consented e) (out w)) (promptSaveImage fuel image).
Proof.
  set (J := fun w => env w = e /\ Forall (consented e) (out w)).
  assert (J_frame : forall w st ks n, J w ->
            J {| env := env w; store := st; keys := ks; pending := n; out := out w |})
    by (intros w st ks n H; exact H).
  assert (J_emit : forall w ev, consented e ev -> J w ->
            J {| env := env w; store := store w; keys := keys w; pending := pending w;
                 out := out w ++ [ev] |}).
  { intros w ev Hev [He Hall]. split; [exact He|]. cbn [out].
    apply Forall_app. split; [exact Hall|now constructor]. }
  unfold promptSaveImage.
  apply keeps_bind; [apply (keeps_emit J (consented e) J_emit); exact I|]. intros _.
  apply keeps_bind.
  { apply keeps_forever. intros [].
    apply keeps_bind; [|intros r; apply keeps_ret].
    apply (keeps_ready J (consented e) J_frame J_emit (not_Imwrite_consented e)). }
  intros _ w [He Hall].
  assert (Hadd : forall tr, Forall (consented e) tr -> Forall (consented e) (out w ++ tr))
    by (intros tr Htr; apply Forall_app; now split).
  unfold result_of_message, save_file, imwrite, showNotification, notify, peek, snapshot.
  unfold bind, ask, emit, ret. cbn [env store keys pending out].
  destruct (answer (env w)) eqn:Ha; cbn [world_of]; try (split; assumption).
  destruct (String.eqb (destination (env w)) "") eqn:Hd;
    cbn [world_of env store keys pending out]; (split; [exact He|]);
    rewrite <- ?app_assoc; apply Hadd; repeat constructor.
  - rewrite <- He. exact Ha.
  - now rewrite He.
  - now apply String.eqb_neq.
Qed.

(** Whatever [main] is started on and however it ends, every [imwrite] it
    makes is one the user consented to: the save question was answered
    "yes", and the file written is the non-empty path entered in the save
    dialog.  In particular nothing is written after "no" or after the save
    dialog was cancelled. *)
Theorem main_writes_by_consent_only
    (fuel : nat) (argv : list string) (e : Env) (ks : list Z) (n : nat)
    (file : Filename) (px : option Pixels) :
  In (Imwrite file px) (out (world_of (main fuel argv (initial e ks n)))) ->
  answer e = button_yes /\ file = destination e /\ file <> EmptyString.
Proof.
  intros Hin.
  assert (Hkeep : env (world_of (main fuel argv (initial e ks n))) = e /\
                  Forall (consented e) (out (world_of (main fuel argv (initial e ks n))))).
  { apply (keeps_main (fun w => env w = e /\ Forall (consented e) (out w)) (consented e)).
    - intros w st ks' n' H. exact H.
    - intros w ev Hev [He Hall]. split; [exact He|]. cbn [out].
      apply Forall_app. split; [exact Hall|now constructor].
    - apply acquisition_call_consented.
    - apply not_Imwrite_consented.
    - apply consent_promptSaveImage.
    - split; [reflexivity|constructor]. }
  destruct Hkeep as [_ Hall].
  exact (proj1 (List.Forall_forall _ _) Hall _ Hin).
Qed.

(** ** What reaches the stitcher *)

Lemma stitch_emits mode images w :
  exists r w2,
    stitch mode images w = Done r w2 /\
    out w2 = out w ++ [Stitch mode (map (deref (store w)) images)].
Proof.
  unfold stitch, bind, snapshot, emit, ask. cbn [env store keys pending out].
  destruct (engine (env w) (map (deref (store w)) images)) as [[| | |] [r|]];
    eexists; eexists; (split; [reflexivity|reflexivity]).
Qed.

(** A call, once made, stays in the trace to the end of [createPanorama]. *)
Lemma createPanorama_calls_stitcher fuel images w :
  In (Stitch PANORAMA (map (deref (store w)) images))
     (out (world_of (createPanorama fuel images w))).
Proof.
  set (ev := Stitch PANORAMA (map (deref (store w)) images)).
  set (J := fun w' : World => In ev (out w')).
  assert (J_frame : forall w' st ks n, J w' ->
            J {| env := env w'; store := st; keys := ks; pending := n; out := out w' |})
    by (intros w' st ks n H; exact H).
  assert (J_emit : forall w' e', True -> J w' ->
            J {| env := env w'; store := store w'; keys := keys w'; pending := pending w';
                 out := out w' ++ [e'] |})
    by (intros w' e' _ H; unfold J; cbn [out]; apply in_or_app; now left).
  unfold createPanorama.
  unfold bind at 1. cbn [emit]. unfold bind at 1. cbn [emit]. unfold bind at 1.
  match goal with |- context [stitch PANORAMA images ?w1] =>
    destruct (stitch_emits PANORAMA images w1) as ([status panorama] & w2 & Hrun & Hout)
  end.
  cbn [store] in Hout. rewrite Hrun.
  apply (keeps_after_stitch J (fun _ => True) J_frame J_emit
           (fun _ _ => Logic.I) (fun _ _ => Logic.I)
           (keeps_promptSaveImage_any J (fun _ => True) J_frame J_emit
              (fun _ _ => Logic.I) (fun _ _ => Logic.I) (fun _ _ => Logic.I))).
  unfold J. rewrite Hout. apply in_or_app. right. now left.
Qed.

(** What the matrices [uploadImages] returns show. *)
Lemma uploadImages_shows files w :
  exists new w',
    uploadImages [] files w = Done new w' /\
    length new = length files /\
    map (deref (store w')) new = map (fun file => fresh <$> disk (env w) file) files.
Proof.
  destruct (uploadImages_run files [] w)
    as (new & ext & w' & Hrun & Hlen & _ & _ & _ & _ & _ & Hnth).
  exists new, w'. split; [exact Hrun|]. split; [exact Hlen|].
  apply list_eq. intros i.
  change (map (deref (store w')) new !! i) with ((deref (store w') <$> new) !! i).
  change (map (fun file => fresh <$> disk (env w) file) files !! i)
    with (((fun file => fresh <$> disk (env w) file) <$> files) !! i).
  rewrite !list_lookup_fmap.
  destruct (files !! i) as [file|] eqn:Hf.
  - destruct (Hnth i file Hf) as (m & Hm & Hd & _). rewrite Hm. cbn. now rewrite Hd.
  - apply lookup_ge_None in Hf. rewrite <- Hlen in Hf.
    apply lookup_ge_None in Hf. now rewrite Hf.
Qed.

(** If [parseArgs] comes down to loading [files], two or more, [main] hands
    the stitcher what those files decode to, in their order. *)
Lemma main_stitches_loaded fuel argv w files :
  parseArgs fuel argv [] w = (let* images := uploadImages [] files in ret (OK, images)) w ->
  2 <= length files ->
  In (Stitch PANORAMA (map (fun file => fresh <$> disk (env w) file) files))
     (out (world_of (main fuel argv w))).
Proof.
  intros Hparse Hlen.
  destruct (uploadImages_shows files w) as (new & w' & Hrun & Hnew & Hshow).
  unfold main. unfold bind at 1. rewrite Hparse, (bind_Done _ _ Hrun).
  cbn [ret Status_eqb].
  replace (1 <? length new) with true by (symmetry; apply Nat.ltb_lt; lia).
  rewrite <- Hshow.
  pose proof (createPanorama_calls_stitcher fuel new w') as Hin.
  unfold bind. destruct (createPanorama fuel new w'); exact Hin.
Qed.

Lemma main_writes_by_consent_only_witness :
  answer (gallery_env (images_given ["a.png"; "c.png"]%string)) = button_yes /\
  "pano.png"%string = destination (gallery_env (images_given ["a.png"; "c.png"]%string)) /\
  "pano.png"%string <> EmptyString.
Proof.
  apply (main_writes_by_consent_only 1 ["panorama"; "-i"; "a.png,c.png"]%string
           (gallery_env (images_given ["a.png"; "c.png"]%string)) [] 0
           "pano.png"%string (Some (fresh (frame_no 7)))).
  vm_compute. repeat (first [left; reflexivity | right]).
Defined.

(** Which branch [parseArgs] takes, for the options used below. *)
Lemma parseArgs_run_demo fuel argv images w result :
  cxxopts_parse (env w) argv = Parsed result ->
  count result "help" = 0 ->
  0 < count result "demo" ->
  parseArgs fuel argv images w =
  (let* images := runDemo images (as_size_t result "demo") in ret (OK, images)) w.
Proof.
  intros Hparse Hhelp Hdemo. unfold parseArgs.
  unfold bind at 1. cbn [ask]. rewrite Hparse, Hhelp.
  replace (0 <? count result "demo") with true by (symmetry; now apply Nat.ltb_lt).
  reflexivity.
Qed.

Lemma parseArgs_run_select fuel argv images w result :
  cxxopts_parse (env w) argv = Parsed result ->
  Forall (fun name => count result name = 0) ["help"; "demo"; "camera"]%string ->
  0 < count result "select" ->
  parseArgs fuel argv images w =
  (let* images := fileSelectGUI images in ret (OK, images)) w.
Proof.
  intros Hparse Hnone Hsel. unfold parseArgs.
  unfold bind at 1. cbn [ask]. rewrite Hparse.
  repeat match goal with
         | H : Forall _ (_ :: _) |- _ =>
             apply Forall_cons_1 in H; destruct H as [-> H]
         end.
  replace (0 <? count result "select") with true by (symmetry; now apply Nat.ltb_lt).
  reflexivity.
Qed.

Lemma parseArgs_run_images fuel argv images w result :
  cxxopts_parse (env w) argv = Parsed result ->
  Forall (fun name => count result name = 0) ["help"; "demo"; "camera"; "select"]%string ->
  0 < count result "images" ->
  parseArgs fuel argv images w =
  (let* images := uploadImages images (as_Filenames result "images") in ret (OK, images)) w.
Proof.
  intros Hparse Hnone Himg. unfold parseArgs.
  unfold bind at 1. cbn [ask]. rewrite Hparse.
  repeat match goal with
         | H : Forall _ (_ :: _) |- _ =>
             apply Forall_cons_1 in H; destruct H as [-> H]
         end.
  replace (0 <? count result "images") with true by (symmetry; now apply Nat.ltb_lt).
  reflexivity.
Qed.

(** With [-i] and two or more files, [main] calls the stitcher on what the
    files decode to, in the order given, one input per file: a file that
    cannot be decoded is not dropped but handed over as an empty image. *)
Theorem main_stitches_given_files
    (fuel : nat) (argv : list string) (w : World) (result : ParseResult) :
  cxxopts_parse (env w) argv = Parsed result ->
  Forall (fun name => count result name = 0) ["help"; "demo"; "camera"; "select"]%string ->
  0 < count result "images" ->
  2 <= length (as_Filenames result "images") ->
  In (Stitch PANORAMA
             (map (fun file => fresh <$> disk (env w) file) (as_Filenames result "images")))
     (out (world_of (main fuel argv w))).
Proof.
  intros Hparse Hnone Himg Hlen.
  apply main_stitches_loaded; [|exact Hlen].
  now apply parseArgs_run_images.
Qed.

Lemma main_stitches_given_files_witness :
  In (Stitch PANORAMA [Some (fresh {| height := 480; scene := 5 |}); None])
     (out (world_of (main 1 ["panorama"; "-i"; "a.png,b.png"]%string
                          (initial (gallery_env (images_given ["a.png"; "b.png"]%string))
                                   [] 0)))).
Proof.
  apply (main_stitches_given_files 1 ["panorama"; "-i"; "a.png,b.png"]%string
           (initial (gallery_env (images_given ["a.png"; "b.png"]%string)) [] 0)
           (images_given ["a.png"; "b.png"]%string)).
  - reflexivity.
  - repeat constructor.
  - simpl. lia.
  - simpl. lia.
Defined.

Lemma demos_hold_two_or_more : Forall (fun entry => 2 <= snd entry) demos.
Proof. unfold demos. repeat constructor; cbn [snd]; lia. Qed.

Lemma length_demo_files entry : length (demo_files entry) = snd entry.
Proof. rewrite demo_files_map, length_map. apply length_seq. Qed.

(** With [-d]: for every id in the catalog [main] reaches the stitcher, with
    one input per file of the dataset (each dataset has at least two); for
    an id outside the catalog the assertion kills the process before
    anything is printed or read. *)
Theorem main_runs_demo
    (fuel : nat) (argv : list string) (w : World) (result : ParseResult) :
  cxxopts_parse (env w) argv = Parsed result ->
  count result "help" = 0 ->
  0 < count result "demo" ->
  (as_size_t result "demo" < length demos ->
     exists entry,
       demos !! as_size_t result "demo" = Some entry /\
       length (demo_files entry) = snd entry /\
       In (Stitch PANORAMA (map (fun file => fresh <$> disk (env w) file) (demo_files entry)))
          (out (world_of (main fuel argv w)))) /\
  (length demos <= as_size_t result "demo" -> main fuel argv w = Aborted w).
Proof.
  intros Hparse Hhelp Hdemo.
  pose proof (parseArgs_run_demo fuel argv [] w result Hparse Hhelp Hdemo) as Hrun.
  split.
  - intros Hin. destruct (lookup_lt_is_Some_2 demos _ Hin) as [entry Hentry].
    exists entry. split; [exact Hentry|]. split; [apply length_demo_files|].
    apply main_stitches_loaded.
    + rewrite Hrun. unfold bind, runDemo, assert.
      replace (as_size_t result "demo" <? length demos) with true
        by (symmetry; now apply Nat.ltb_lt).
      replace (0 <=? as_size_t result "demo") with true
        by (symmetry; apply Nat.leb_le; lia).
      cbn [andb]. now rewrite (nth_lookup_Some _ _ (EmptyString, 0) _ Hentry).
    + rewrite length_demo_files.
      exact (proj1 (Forall_lookup _ _) demos_hold_two_or_more _ _ Hentry).
  - intros Hout. unfold main. unfold bind at 1. rewrite Hrun.
    unfold bind, runDemo, assert.
    replace (as_size_t result "demo" <? length demos) with false
      by (symmetry; now apply Nat.ltb_ge).
    now rewrite andb_false_r.
Qed.

Lemma main_runs_demo_witness :
  main 1 ["panorama"; "-d"; "11"]%string (initial (gallery_env (demo_given 11)) [] 0)
  = Aborted (initial (gallery_env (demo_given 11)) [] 0).
Proof.
  apply (main_runs_demo 1 ["panorama"; "-d"; "11"]%string
           (initial (gallery_env (demo_given 11)) [] 0) (demo_given 11)).
  - reflexivity.
  - reflexivity.
  - simpl. lia.
  - simpl. lia.
Defined.

(** With [-s] and nothing selected in the file browser, [main] reads no
    file, does not call the stitcher, reports "Not enough images provided"
    and returns 0. *)
Theorem main_select_cancelled
    (fuel : nat) (argv : list string) (w : World) (result : ParseResult) :
  cxxopts_parse (env w) argv = Parsed result ->
  Forall (fun name => count result name = 0) ["help"; "demo"; "camera"]%string ->
  0 < count result "select" ->
  picked (env w) = [] ->
  main fuel argv w =
  Done 0%Z {| env := env w; store := store w; keys := keys w; pending := pending w;
              out := out w
                     ++ [OpenFileDialog "Select images to create panorama of" "./"
                                        ["All Files"; "*"]%string opt_multiselect]
                     ++ error_report "Not enough images provided" |}.
Proof.
  intros Hparse Hnone Hsel Hpicked.
  unfold main. unfold bind at 1.
  rewrite (parseArgs_run_select fuel argv [] w result Hparse Hnone Hsel).
  unfold fileSelectGUI, open_file.
  unfold bind at 1. unfold bind at 1. unfold bind at 1. cbn [emit].
  cbn [ask env store keys pending out]. rewrite Hpicked.
  cbn [uploadImages ret Status_eqb length Nat.ltb Nat.leb].
  unfold bind at 1. rewrite showError_run. cbn [ret env store keys pending out].
  now rewrite <- app_assoc.
Qed.

Lemma main_select_cancelled_witness :
  main 1 ["panorama"; "-s"]%string (initial (gallery_env (flags ["select"]%string)) [] 0) =
  Done 0%Z {| env := gallery_env (flags ["select"]%string); store := []; keys := [];
              pending := 0;
              out := []
                     ++ [OpenFileDialog "Select images to create panorama of" "./"
                                        ["All Files"; "*"]%string opt_multiselect]
                     ++ error_report "Not enough images provided" |}.
Proof.
  apply (main_select_cancelled 1 ["panorama"; "-s"]%string
           (initial (gallery_env (flags ["select"]%string)) [] 0)
           (flags ["select"]%string)).
  - reflexivity.
  - repeat constructor.
  - simpl. lia.
  - reflexivity.
Defined.

(** ** The preview *)






(** ** Where the process can be killed *)

Lemma bind_Aborted_inv {A B} (m : M A) (k : A -> M B) w w' :
  bind m k w = Aborted w' ->
  m w = Aborted w' \/ exists a w1, m w = Done a w1 /\ k a w1 = Aborted w'.
Proof.
  unfold bind. destruct (m w) as [a w1|w1|w1]; intros H.
  - right. now exists a, w1.
  - left. now injection H as ->.
  - discriminate.
Qed.

Lemma safe_ret {A} (a : A) : safe (ret a).
Proof. intros w w'. discriminate. Qed.

Lemma safe_bind {A B} (m : M A) (k : A -> M B) :
  safe m -> (forall a, safe (k a)) -> safe (bind m k).
Proof.
  intros Hm Hk w w' H. destruct (bind_Aborted_inv _ _ _ _ H) as [Ha|(a & w1 & _ & Ha)].
  - exact (Hm _ _ Ha).
  - exact (Hk _ _ _ Ha).
Qed.

Lemma safe_emit e : safe (emit e).
Proof. intros w w'. discriminate. Qed.

Lemma safe_ask {A} (f : Env -> A) : safe (ask f).
Proof. intros w w'. discriminate. Qed.

Lemma safe_alloc p : safe (alloc p).
Proof. intros w w'. discriminate. Qed.

Lemma safe_snapshot : safe snapshot.
Proof. intros w w'. discriminate. Qed.

Lemma safe_putText img txt at_ font scale col thick :
  safe (putText img txt at_ font scale col thick).
Proof. intros w w'. unfold putText. destruct (data img); discriminate. Qed.

Lemma safe_forever {St} (body : St -> M (Ctl * St)) fuel :
  (forall s, safe (body s)) -> forall s, safe (forever fuel body s).
Proof.
  intros Hbody. induction fuel as [|fuel IH]; intros s.
  - intros w w'. discriminate.
  - rewrite forever_S. apply safe_bind; [apply Hbody|].
    intros [[|] s']; [apply IH|apply safe_ret].
Qed.

Lemma safe_waitKey delay : safe (waitKey delay).
Proof. intros w w'. rewrite waitKey_run. discriminate. Qed.

Lemma safe_ready timeout : safe (ready timeout).
Proof.
  apply safe_bind; [apply safe_emit|]. intros _ w w'. destruct (pending w); discriminate.
Qed.

Ltac sound :=
  repeat first
    [ apply safe_ret | apply safe_ask | apply safe_alloc | apply safe_snapshot
    | apply safe_putText | apply safe_waitKey | apply safe_ready | apply safe_emit
    | apply safe_bind
    | match goal with
      | |- safe (match ?x with _ => _ end) => destruct x
      | |- forall _, _ => intro
      end ].

Lemma safe_read feed : safe (read feed).
Proof. unfold read. sound. Qed.

Lemma safe_imread file : safe (imread file).
Proof. unfold imread. sound. Qed.

Lemma safe_uploadImages files : forall images, safe (uploadImages images files).
Proof.
  induction files as [|file files IH]; intros images; simpl.
  - apply safe_ret.
  - apply safe_bind; [apply safe_imread|]. intros image. apply IH.
Qed.

Lemma safe_cameraCapture fuel images : safe (cameraCapture fuel images).
Proof.
  unfold cameraCapture, open_device, release, destroyAllWindows.
  apply safe_bind; [sound|]. intros feed.
  apply safe_bind; [|sound].
  apply safe_forever. intros [feed' images'].
  unfold cameraCapture_body, imshow, peek.
  apply safe_bind; [apply safe_read|]. sound.
Qed.

Lemma safe_fileSelectGUI images : safe (fileSelectGUI images).
Proof.
  unfold fileSelectGUI, open_file.
  apply safe_bind; [sound|]. intros files. apply safe_uploadImages.
Qed.

(** The default frequency passes the assertion of [videoCapture]. *)
Lemma safe_videoCapture fuel images video frequency :
  frequency_ok frequency = true -> safe (videoCapture fuel images video frequency).
Proof.
  intros Hok. unfold videoCapture, open_video, release. unfold frequency_ok in Hok.
  rewrite Hok. apply safe_bind; [intros w w'; discriminate|]. intros _.
  apply safe_bind; [sound|]. intros feed.
  apply safe_bind; [|sound].
  apply safe_forever. intros [[feed' images'] fp].
  unfold videoCapture_body, set_pos.
  apply safe_bind; [apply safe_read|]. sound.
Qed.

Lemma safe_showError msg : safe (showError msg).
Proof. unfold showError, notify. sound. Qed.

Lemma safe_createPanorama fuel images : safe (createPanorama fuel images).
Proof.
  unfold createPanorama, stitch, showNotification, notify, imshow, peek,
    promptSaveImage, message, result_of_message, save_file, imwrite, peek,
    destroyAllWindows.
  apply safe_bind; [sound|]. intros _.
  apply safe_bind; [sound|]. intros _.
  apply safe_bind; [sound|]. intros [status panorama].
  destruct status; try apply safe_showError.
  apply safe_bind; [sound|]. intros _.
  apply safe_bind; [sound|]. intros _.
  apply safe_bind; [sound|]. intros _.
  apply safe_bind; [|sound].
  apply safe_bind; [sound|]. intros _.
  apply safe_bind; [apply safe_forever; sound|]. sound.
Qed.

(** The process is killed by an assertion in one case only: [-d] with an id
    outside the catalog, and then before anything else has happened.  No
    other option, device, file, key or answer can make an assertion fail; in
    particular the assertion on the sampling frequency never fires in a run
    of [main], which always samples at 0.1. *)
Theorem main_is_killed_by_demo_id_only
    (fuel : nat) (argv : list string) (w w' : World) :
  main fuel argv w = Aborted w' ->
  exists result,
    cxxopts_parse (env w) argv = Parsed result /\
    count result "help" = 0 /\
    0 < count result "demo" /\
    length demos <= as_size_t result "demo" /\
    w' = w.
Proof.
  intros H. unfold main in H.
  apply bind_Aborted_inv in H. destruct H as [H|([status images] & w1 & _ & H)].
  2:{ exfalso. revert H. apply safe_bind; [|intros; apply safe_ret].
      destruct (Status_eqb status OK); [|apply safe_ret].
      destruct (1 <? length images); [apply safe_createPanorama|apply safe_showError]. }
  unfold parseArgs in H. unfold bind at 1 in H. cbn [ask] in H.
  destruct (cxxopts_parse (env w) argv) as [result|what]; [|discriminate].
  exists result. split; [reflexivity|].
  destruct (0 <? count result "help") eqn:Hhelp; [discriminate|].
  apply Nat.ltb_ge in Hhelp.
  destruct (0 <? count result "demo") eqn:Hdemo.
  - apply Nat.ltb_lt in Hdemo.
    apply bind_Aborted_inv in H. destruct H as [H|(a & w1 & _ & H)]; [|discriminate].
    unfold runDemo in H.
    apply bind_Aborted_inv in H. destruct H as [H|(a & w1 & _ & H)].
    + unfold assert in H.
      destruct (as_size_t result "demo" <? length demos) eqn:Hin.
      * replace (0 <=? as_size_t result "demo") with true in H
          by (symmetry; apply Nat.leb_le; lia).
        discriminate.
      * rewrite andb_false_r in H. injection H as <-.
        apply Nat.ltb_ge in Hin. repeat split; [lia|exact Hdemo|exact Hin].
    + exfalso. exact (safe_uploadImages _ _ _ _ H).
  - exfalso.
    assert (Hthen : forall (adapter : M (list Image)),
              safe adapter -> safe (let* images := adapter in ret (OK, images)))
      by (intros adapter Ha; apply safe_bind; [exact Ha|intros; apply safe_ret]).
    revert H.
    repeat match goal with
           | |- (if ?b then _ else _) _ = _ -> _ => destruct b
           end.
    + apply Hthen, safe_cameraCapture.
    + apply Hthen, safe_fileSelectGUI.
    + apply Hthen, safe_uploadImages.
    + apply Hthen, safe_videoCapture. vm_compute. reflexivity.
    + discriminate.
Qed.

Lemma main_is_killed_by_demo_id_only_witness :
  exists result,
    cxxopts_parse (env (initial (gallery_env (demo_given 11)) [] 0))
                  ["panorama"; "-d"; "11"]%string = Parsed result /\
    count result "help" = 0 /\
    0 < count result "demo" /\
    length demos <= as_size_t result "demo" /\
    initial (gallery_env (demo_given 11)) [] 0 = initial (gallery_env (demo_given 11)) [] 0.
Proof.
  apply (main_is_killed_by_demo_id_only 1 ["panorama"; "-d"; "11"]%string
           (initial (gallery_env (demo_given 11)) [] 0)
           (initial (gallery_env (demo_given 11)) [] 0)).
  reflexivity.
Defined.
